(** * GL tiled textures backed by GeoTIFF files

    A shallow embedding of
    [src/ol/source/GlTiledTexture/GlTiledTextureGeoTiffTiles.js]
    (class [GlTiledTextureGeoTiffTiles]) and of its sibling class
    [GlTiledTextureGeoTiff], together with the collaborators they call:
    promises, the tile source, the GeoTIFF decoder and the LRU cache.

    Conventions.
    - A JavaScript number is a binary64 float ([PrimFloat.float]); values read
      from TIFF tags (unsigned 16-bit) are kept as [Z].
    - [undefined] and [null] are [None].
    - A promise is modelled by its eventual outcome; [then] is sequencing on
      outcomes, and the side effects of a callback are applied to the state
      in program order of the call that registered it.
    - Calls into collaborators whose occurrence matters are recorded in a
      trace of events. *)

From Stdlib Require Import ZArith NArith List String Ascii Bool Lia.
From Stdlib Require Import Sorted DecimalString.
From Stdlib Require Import PrimFloat SpecFloat FloatOps.
Import ListNotations.

Local Open Scope string_scope.
Local Open Scope list_scope.

(** ** JavaScript values *)

Module Js.

(** What a promise can be rejected with: a string handed to
    [Promise.reject], a [TypeError] raised while a callback runs, or a
    reason produced by a collaborator. *)
Inductive Reason : Type :=
| Str (msg : string)
| TypeError
| RangeError
| Foreign (code : nat).

(** The eventual outcome of a promise. [Pending] is a promise that never
    settles. *)
Inductive Promise (A : Type) : Type :=
| Pending
| Fulfilled (a : A)
| Rejected (r : Reason).

Arguments Pending {A}.
Arguments Fulfilled {A} a.
Arguments Rejected {A} r.

Definition settled {A} (p : Promise A) : bool :=
  match p with Pending => false | _ => true end.

(** [p.then(k)] for a callback without side effects. A callback returns a
    value ([Fulfilled]), another promise, or throws ([Rejected]). *)
Definition thenP {A B} (p : Promise A) (k : A -> Promise B) : Promise B :=
  match p with
  | Pending => Pending
  | Fulfilled a => k a
  | Rejected r => Rejected r
  end.

(** [p.then(k)] for a callback that acts on a state [S]. *)
Definition then_ {S A B} (p : Promise A) (k : A -> S -> Promise B * S)
    (s : S) : Promise B * S :=
  match p with
  | Pending => (Pending, s)
  | Fulfilled a => k a s
  | Rejected r => (Rejected r, s)
  end.

(** *** Numbers *)

Definition Z2F (z : Z) : float := SF2Prim (binary_normalize prec emax z 0 false).
Definition N2F (n : N) : float := Z2F (Z.of_N n).

(** Truncation toward zero of a finite number; NaN and the infinities give
    0, as in the integer conversions of typed arrays. *)
Definition truncZ (x : float) : Z :=
  match Prim2SF x with
  | S754_finite s m e =>
      let a := Z.shiftl (Zpos m) e in
      if s then (- a)%Z else a
  | _ => 0%Z
  end.

(** [Math.round]: the nearest integer, ties toward positive infinity. *)
Definition Math_round (x : float) : float :=
  match Prim2SF x with
  | S754_finite s m e =>
      if (0 <=? e)%Z then x
      else
        let d := (2 ^ (- e))%Z in
        let n := if s then ((d - 2 * Zpos m) / (2 * d))%Z
                 else ((2 * Zpos m + d) / (2 * d))%Z in
        if (n =? 0)%Z then (if s then neg_zero else zero) else Z2F n
  | _ => x
  end.

(** Reading [a[i]] where a number is needed: past the end the read gives
    [undefined], which arithmetic turns into NaN. *)
Definition num_at (a : list float) (i : nat) : float := nth i a nan.

(** *** Template literals *)

Definition nl : string := String (ascii_of_nat 10) EmptyString.

Definition string_of_Z (z : Z) : string := NilZero.string_of_int (Z.to_int z).

(** [`${v}`] for a value that is an integer or [undefined]. *)
Definition show (v : option Z) : string :=
  match v with
  | Some z => string_of_Z z
  | None => "undefined"
  end.

(** [v === n] for an integer literal [n]. *)
Definition strictEq (v : option Z) (n : Z) : bool :=
  match v with
  | Some z => (z =? n)%Z
  | None => false
  end.

(** *** Typed arrays *)

Inductive ElementType : Type :=
| Int8 | Uint8 | Uint8Clamped | Int16 | Uint16 | Int32 | Uint32 | Float32 | Float64.

Record TypedArray : Type := {
  elementType : ElementType;
  elements : list float
}.

Definition ToUint8 (x : float) : Z := (truncZ x mod 256)%Z.
Definition ToUint16 (x : float) : Z := (truncZ x mod 65536)%Z.
Definition ToInt16 (x : float) : Z := ((truncZ x + 32768) mod 65536 - 32768)%Z.

(** A test of a property on every integer from [lo] to [lo + 2 ^ k - 1]. *)
Fixpoint checkRange (k : nat) (lo : Z) (P : Z -> bool) : bool :=
  match k with
  | O => P lo
  | S k' => checkRange k' lo P && checkRange k' (lo + 2 ^ Z.of_nat k') P
  end.

(** The integers an element of the type can hold, for the three element
    types written out above. *)
Definition inRange (ty : ElementType) (z : Z) : bool :=
  match ty with
  | Uint8 => ((0 <=? z) && (z <? 256))%Z
  | Uint16 => ((0 <=? z) && (z <? 65536))%Z
  | Int16 => ((-32768 <=? z) && (z <? 32768))%Z
  | _ => false
  end.

(** The largest length [new Uint8Array(n)] accepts before raising a
    [RangeError] (2^53 - 1). *)
Definition maxIndex : N := 9007199254740991%N.

End Js.

Import Js.

(** Case analysis on every test [v === n] of the goal, given the lemma that
    relates the test to [v = Some n]. *)
Ltac split_tests spec :=
  repeat match goal with
         | |- context [strictEq ?v ?n] => destruct (spec v n)
         end;
  simpl.

(** ** The LRU cache ([ol/structs/LRUCache.js], imported at line 7; its
    source is not among the files embedded here) *)

Module LRUCache.
Section Generic.

Variables K V : Type.
Variable K_eq_dec : forall a b : K, {a = b} + {a <> b}.

(** Modelled from the spec: the missing class [LRUCache], "a fixed-size
    least-recently-used cache" that is "keyed by tile URL". The entries are
    kept from the least recently used (head) to the most recently used
    (last); [highWaterMark] is the fixed capacity. *)
Record t : Type := {
  highWaterMark : nat;
  entries : list (K * V)
}.

(** Modelled from the spec: the missing constructor [new LRUCache(n)], an
    empty cache of fixed capacity [n]. *)
Definition create (n : nat) : t := {| highWaterMark := n; entries := [] |}.

(** Modelled from the spec: whether an entry of the missing class is the
    one "keyed by" [k]. *)
Definition hasKey (k : K) (e : K * V) : bool :=
  if K_eq_dec k (fst e) then true else false.

(** Modelled from the spec: the keys of the missing class's entries, from
    the least to the most recently used. *)
Definition keys (c : t) : list K := map fst (entries c).

(** Modelled from the spec: the missing method [getCount], the number of
    entries held. *)
Definition getCount (c : t) : nat := List.length (entries c).

(** Modelled from the spec: the missing method [containsKey] of the cache
    "keyed by tile URL". *)
Definition containsKey (k : K) (c : t) : bool := existsb (hasKey k) (entries c).

(** Modelled from the spec: the value the cache "keyed by tile URL" holds
    under a key, read without touching the order. It is used to state
    properties; the sources do not call it. *)
Definition lookup (k : K) (c : t) : option V :=
  option_map snd (find (hasKey k) (entries c)).

(** Modelled from the spec: the missing method [get] of the
    "least-recently-used cache": the value stored under the key, which
    becomes the most recently used entry. A key that is absent gives
    [undefined] and leaves the cache as it is. *)
Definition get (k : K) (c : t) : option V * t :=
  match find (hasKey k) (entries c) with
  | Some (_, v) =>
      (Some v,
       {| highWaterMark := highWaterMark c;
          entries := filter (fun e => negb (hasKey k e)) (entries c) ++ [(k, v)] |})
  | None => (None, c)
  end.

(** Modelled from the spec: the missing method [set]: a new entry, the most
    recently used one. The sources call it only for a key that [containsKey]
    has just reported absent. *)
Definition set (k : K) (v : V) (c : t) : t :=
  {| highWaterMark := highWaterMark c; entries := entries c ++ [(k, v)] |}.

(** Modelled from the spec: the missing method [canExpireCache] of the
    "fixed-capacity LRU": whether the cache holds more entries than its
    capacity. *)
Definition canExpireCache (c : t) : bool := Nat.ltb (highWaterMark c) (getCount c).

(** Modelled from the spec: the missing method [pop], the "eviction" of the
    "least-recently-used" entry, which is returned. *)
Definition pop (c : t) : option (K * V) * t :=
  match entries c with
  | [] => (None, c)
  | e :: rest => (Some e, {| highWaterMark := highWaterMark c; entries := rest |})
  end.

End Generic.

Arguments highWaterMark {K V} _.
Arguments entries {K V} _.
Arguments create {K V} n.
Arguments keys {K V} c.
Arguments getCount {K V} c.
Arguments containsKey {K V} K_eq_dec k c.
Arguments get {K V} K_eq_dec k c.
Arguments lookup {K V} K_eq_dec k c.
Arguments hasKey {K V} K_eq_dec k e.
Arguments set {K V} k v c.
Arguments canExpireCache {K V} c.
Arguments pop {K V} c.

End LRUCache.

(** ** The tile source and the tile request ([ol/source/TileImage.js],
    [GlTiledTextureAbstract.js]) *)

Module Ol.

(** A tile coordinate [[z, x, y]]. *)
Definition TileCoord : Type := (Z * Z * Z)%type.

(** What [tileUrlFunction] returns: a URL, or [undefined]. *)
Definition Url : Type := option string.

Definition Url_eq_dec (a b : Url) : {a = b} + {a <> b}.
Proof. decide equality. apply string_dec. Defined.

Inductive TileGrid : Type := TileGridRef (id : nat).
Inductive Projection : Type := ProjectionRef (id : nat).

(** The part of a [TileImage] / [XYZ] source the classes call. The source
    is a collaborator: each method is given by what it answers. *)
Record TileImage : Type := {
  getTileCoordForTileUrlFunction : TileCoord -> option TileCoord;
  tileUrlFunction : option TileCoord -> Url;
  tileGrid : TileGrid;
  getProjection : Projection
}.

(** [TiledDataParameters] of [GlTiledTextureAbstract.js]. *)
Record TiledDataParameters : Type := {
  paramTileGrid : option TileGrid;
  tileCoord : TileCoord;
  tileSize : list float;
  tileExtent : list float
}.

End Ol.

(** ** The GeoTIFF decoder (the external library geotiff.js) *)

Module Geotiff.

Inductive Pool : Type := PoolRef (id : nat).

(** The tags of the file directory the classes read. A tag that the file
    does not carry is [None]. *)
Record FileDirectory : Type := {
  BitsPerSample : option (list Z);
  SampleFormat : option (list Z)
}.

(** The object literal handed to [readRasters]; a property that is not
    written, or whose value is [undefined], is [None]. *)
Record ReadRastersOptions : Type := {
  window : option (list float);
  width : option float;
  height : option float;
  resampleMethod : option string;
  samples : list nat;
  fillValue : float;
  pool : Pool
}.

Record GeoTIFFImage : Type := {
  getWidth : N;
  getHeight : N;
  getBoundingBox : list float;
  getSamplesPerPixel : nat;
  getFileDirectory : FileDirectory;
  readRasters : ReadRastersOptions -> Promise (list TypedArray)
}.

Record GeoTIFF : Type := {
  getImage : Promise GeoTIFFImage
}.

(** The (BitsPerSample, SampleFormat) pair of a sample, when the file
    carries both tags; a component is [None] when the sample index is out of
    the tag's range. *)
Definition samplePair (img : GeoTIFFImage) (s : nat) : option (option Z * option Z) :=
  match BitsPerSample (getFileDirectory img), SampleFormat (getFileDirectory img) with
  | Some b, Some f => Some (nth_error b s, nth_error f s)
  | _, _ => None
  end.

End Geotiff.

(** Calls into collaborators that the properties speak about. *)
Inductive Event : Type :=
| FactoryCall (url : Ol.Url)
| CacheEvict (url : Ol.Url)
| ReadRasters (opts : Geotiff.ReadRastersOptions).

(** The URLs the factory was called with, the keys the cache evicted and
    the options [readRasters] was called with, in a stretch of the trace. *)
Definition factoryCalls (evs : list Event) : list Ol.Url :=
  flat_map (fun e => match e with FactoryCall u => [u] | _ => [] end) evs.

Definition evictions (evs : list Event) : list Ol.Url :=
  flat_map (fun e => match e with CacheEvict u => [u] | _ => [] end) evs.

Definition readRastersCalls (evs : list Event) : list Geotiff.ReadRastersOptions :=
  flat_map (fun e => match e with ReadRasters o => [o] | _ => [] end) evs.

(** ** Texts shared by the two classes *)

(** The template literal that wraps the GLSL body (lines 134-137, and again
    lines 319-322 of the second class, character for character). *)
Definition fetchFunction (name uniformName body : string) : string :=
  ("float " ++ name ++ "(vec2 texelCoords) {" ++ nl
   ++ "        vec4 texel = texture2D(" ++ uniformName ++ ", texelCoords.st);" ++ nl
   ++ "        " ++ body ++ nl
   ++ "      }")%string.

(** The rejection messages (lines 117-129 and 302-314). *)
Definition notImplemented (bits : option Z) (kind : string) : string :=
  ("GeoTIFF pixel format not yet implemented (" ++ show bits ++ " bits, " ++ kind ++ ")")%string.

(** ** [GlTiledTextureGeoTiffTiles] (lines 1-148 of the source file) *)

Module GeoTiffTiles.
Import Ol.

(** The constructor's [Options]; they are taken as given, the constructor
    applies no default. *)
Record Options : Type := {
  xyz : TileImage;
  geotiffFactory : Url -> Promise Geotiff.GeoTIFF;
  fetchFuncName : string;
  sample : nat;
  fillValue : float;
  pool : Geotiff.Pool
}.

(** An instance. [anyTile_] refers to the promise created by the
    constructor; [resolveAnyTile_] is the resolver of the same promise. *)
Record GlTiledTextureGeoTiffTiles : Type := {
  fetchFuncName_ : string;
  sample_ : nat;
  fillValue_ : float;
  factory_ : Url -> Promise Geotiff.GeoTIFF;
  xyz_ : TileImage;
  pool_ : Geotiff.Pool;
  anyTile_ : nat
}.

(** The state of the module: the cache shared by every instance (line 13),
    the promises created by the constructors, and the trace. *)
Record World : Type := {
  geotiffCache : LRUCache.t Url (Promise Geotiff.GeoTIFF);
  deferred : nat -> Promise Geotiff.GeoTIFFImage;
  nextRef : nat;
  trace : list Event
}.

(** [const geotiffCache = new LRUCache(16)] (line 13). *)
Definition initialWorld : World := {|
  geotiffCache := LRUCache.create 16;
  deferred := fun _ => Pending;
  nextRef := 0;
  trace := []
|}.

Definition withCache (c : LRUCache.t Url (Promise Geotiff.GeoTIFF)) (w : World) : World :=
  {| geotiffCache := c; deferred := deferred w; nextRef := nextRef w; trace := trace w |}.

Definition emit (e : Event) (w : World) : World :=
  {| geotiffCache := geotiffCache w; deferred := deferred w; nextRef := nextRef w;
     trace := trace w ++ [e] |}.

(** Lines 34-45. *)
Definition constructor (o : Options) (w : World) : GlTiledTextureGeoTiffTiles * World :=
  let ref := nextRef w in
  ({| fetchFuncName_ := fetchFuncName o;
      sample_ := sample o;
      fillValue_ := fillValue o;
      factory_ := geotiffFactory o;
      xyz_ := xyz o;
      pool_ := pool o;
      anyTile_ := ref |},
   {| geotiffCache := geotiffCache w;
      deferred := fun r => if Nat.eqb r ref then Pending else deferred w r;
      nextRef := S ref;
      trace := trace w |}).

(** [this.resolveAnyTile_(img)]: settles the promise if it is still pending,
    and does nothing otherwise. *)
Definition resolveAnyTile_ (this : GlTiledTextureGeoTiffTiles) (img : Geotiff.GeoTIFFImage)
    (w : World) : World :=
  match deferred w (anyTile_ this) with
  | Pending =>
      {| geotiffCache := geotiffCache w;
         deferred := fun r => if Nat.eqb r (anyTile_ this) then Fulfilled img else deferred w r;
         nextRef := nextRef w;
         trace := trace w |}
  | _ => w
  end.

(** Lines 56-65 of [getTiledData]: the GeoTIFF promise for a URL, from the
    cache or from the factory. In the first branch [get] answers [undefined]
    only for an absent key, on which [instance.then] would raise; the branch
    is entered when [containsKey] holds. *)
Definition getTiledData_instance (this : GlTiledTextureGeoTiffTiles) (url : Url) (w : World)
    : Promise Geotiff.GeoTIFF * World :=
  if LRUCache.containsKey Url_eq_dec url (geotiffCache w) then
    match LRUCache.get Url_eq_dec url (geotiffCache w) with
    | (Some instance, c) => (instance, withCache c w)
    | (None, c) => (Rejected TypeError, withCache c w)
    end
  else
    let instance := factory_ this url in
    let w1 := emit (FactoryCall url) w in
    let c1 := LRUCache.set url instance (geotiffCache w1) in
    if LRUCache.canExpireCache c1 then
      match LRUCache.pop c1 with
      | (Some (k, _), c2) => (instance, emit (CacheEvict k) (withCache c2 w1))
      | (None, c2) => (instance, withCache c2 w1)
      end
    else (instance, withCache c1 w1).

(** The options of the [readRasters] call of lines 73-79. *)
Definition getTiledData_options (this : GlTiledTextureGeoTiffTiles) (p : TiledDataParameters)
    : Geotiff.ReadRastersOptions :=
  {| Geotiff.window := None;
     Geotiff.width := nth_error (tileSize p) 0;
     Geotiff.height := nth_error (tileSize p) 1;
     Geotiff.resampleMethod := None;
     Geotiff.samples := [sample_ this];
     Geotiff.fillValue := fillValue_ this;
     Geotiff.pool := pool_ this |}.

(** Lines 67-83 of [getTiledData]: what is chained on the GeoTIFF promise. *)
Definition getTiledData_decode (this : GlTiledTextureGeoTiffTiles) (p : TiledDataParameters)
    (instance : Promise Geotiff.GeoTIFF) (w : World) : Promise (option TypedArray) * World :=
  then_ (thenP instance (fun tiff => Geotiff.getImage tiff))
    (fun img w2 =>
       let w3 := resolveAnyTile_ this img w2 in
       let opts := getTiledData_options this p in
       (thenP (Geotiff.readRasters img opts)
          (fun rasters => Fulfilled (nth_error rasters 0)),
        emit (ReadRasters opts) w3))
    w.

(** Lines 50-84. *)
Definition getTiledData (this : GlTiledTextureGeoTiffTiles) (p : TiledDataParameters)
    (w : World) : Promise (option TypedArray) * World :=
  let urlTileCoord := getTileCoordForTileUrlFunction (xyz_ this) (tileCoord p) in
  let url := tileUrlFunction (xyz_ this) urlTileCoord in
  let '(instance, w1) := getTiledData_instance this url w in
  getTiledData_decode this p instance w1.

(** The callback of lines 97-138, run on the image [anyTile_] resolved
    with. Reading an index of a tag that is absent raises a [TypeError]. *)
Definition getFetchFunctionDef_callback (this : GlTiledTextureGeoTiffTiles)
    (uniformName : string) (img : Geotiff.GeoTIFFImage) : Promise string :=
  let dir := Geotiff.getFileDirectory img in
  match Geotiff.BitsPerSample dir, Geotiff.SampleFormat dir with
  | Some bitsPerSample, Some sampleFormat =>
      let bits := nth_error bitsPerSample (sample_ this) in
      let format := nth_error sampleFormat (sample_ this) in
      let done body := Fulfilled (fetchFunction (fetchFuncName_ this) uniformName body) in
      if strictEq bits 8 && strictEq format 1 then
        done "return texel.x * 256.;"
      else if strictEq bits 8 && strictEq format 2 then
        done "return texel.x * 256.;"
      else if strictEq bits 16 && strictEq format 1 then
        done "return texel.x * 256. + texel.a * 65536.0;"
      else if strictEq bits 16 && strictEq format 2 then
        done "return texel.x * 256. + texel.a * 65536.0;"
      else if strictEq format 1 then
        Rejected (Str (notImplemented bits "uint"))
      else if strictEq format 2 then
        Rejected (Str (notImplemented bits "int"))
      else if strictEq format 2 then
        Rejected (Str (notImplemented bits "float"))
      else
        Rejected (Str (notImplemented bits "unknown uint/int/float"))
  | _, _ => Rejected TypeError
  end.

(** Lines 96-139. *)
Definition getFetchFunctionDef (this : GlTiledTextureGeoTiffTiles) (uniformName : string)
    (w : World) : Promise string :=
  thenP (deferred w (anyTile_ this)) (getFetchFunctionDef_callback this uniformName).

(** The outcome of the chain of lines 67-83 when it hangs on the GeoTIFF
    promise [instance]. *)
Definition decoded (this : GlTiledTextureGeoTiffTiles) (p : TiledDataParameters)
    (instance : Promise Geotiff.GeoTIFF) : Promise (option TypedArray) :=
  thenP (thenP instance (fun tiff => Geotiff.getImage tiff))
    (fun img =>
       thenP (Geotiff.readRasters img (getTiledData_options this p))
         (fun rasters => Fulfilled (nth_error rasters 0))).

(** Lines 141-147. *)
Definition getTileGrid (this : GlTiledTextureGeoTiffTiles) : TileGrid := tileGrid (xyz_ this).
Definition getProjection (this : GlTiledTextureGeoTiffTiles) : Projection :=
  Ol.getProjection (xyz_ this).

(** The events the chain of lines 67-83 adds to the trace. *)
Definition readEvents (this : GlTiledTextureGeoTiffTiles) (p : TiledDataParameters)
    (instance : Promise Geotiff.GeoTIFF) : list Event :=
  match thenP instance (fun tiff => Geotiff.getImage tiff) with
  | Fulfilled _ => [ReadRasters (getTiledData_options this p)]
  | _ => []
  end.

(** A call of [getTiledData] on some instance, and the URL it computes
    (lines 51-54). *)
Definition Call : Type := (GlTiledTextureGeoTiffTiles * TiledDataParameters)%type.

Definition callUrl (c : Call) : Url :=
  tileUrlFunction (xyz_ (fst c)) (getTileCoordForTileUrlFunction (xyz_ (fst c)) (tileCoord (snd c))).

(** What a program does with the module: it creates instances and asks
    them for tiles. [run] is the state after a sequence of such actions. *)
Inductive Action : Type :=
| Construct (o : Options)
| Request (c : Call).

Definition step (w : World) (a : Action) : World :=
  match a with
  | Construct o => snd (constructor o w)
  | Request c => snd (getTiledData (fst c) (snd c) w)
  end.

Definition run (acts : list Action) (w : World) : World := fold_left step acts w.

(** The URLs requested by a sequence of actions, oldest first. *)
Definition requests (acts : list Action) : list Url :=
  flat_map (fun a => match a with Request c => [callUrl c] | Construct _ => [] end) acts.

(** Whether the last thing the trace says about a URL is that the factory
    was called on it (and not that the cache evicted it). *)
Definition liveAfter (u : Url) (b : bool) (e : Event) : bool :=
  match e with
  | FactoryCall u' => if Url_eq_dec u u' then true else b
  | CacheEvict u' => if Url_eq_dec u u' then false else b
  | ReadRasters _ => b
  end.

Definition liveFrom (b : bool) (u : Url) (t : list Event) : bool :=
  fold_left (liveAfter u) t b.

Definition live (u : Url) (t : list Event) : bool := liveFrom false u t.

(** In the history [h] of requested URLs, [b] has been requested after the
    last request of [a]: [a] is less recently used than [b]. *)
Definition usedAfterLast (h : list Url) (a b : Url) : Prop :=
  exists h1 h2, h = h1 ++ a :: h2 /\ ~ In a h2 /\ In b h2.

(** Between two calls of the factory on the same URL, the trace has an
    eviction of that URL. *)
Definition evictedBetween (t : list Event) : Prop :=
  forall t1 u t2 t3,
    t = t1 ++ FactoryCall u :: t2 ++ FactoryCall u :: t3 -> In (CacheEvict u) t2.

(** What holds of the state after any sequence of actions with requested
    URLs [h]: the capacity is 16 and is respected; the keys are in the order
    of their last request; the keys are the URLs that are live in the trace;
    and the factory is called again on a URL only after its eviction. *)
Definition Invariant (h : list Url) (w : World) : Prop :=
  LRUCache.highWaterMark (geotiffCache w) = 16 /\
  LRUCache.getCount (geotiffCache w) <= 16 /\
  StronglySorted (usedAfterLast h) (LRUCache.keys (geotiffCache w)) /\
  Forall (fun k => In k h) (LRUCache.keys (geotiffCache w)) /\
  (forall u, In u (LRUCache.keys (geotiffCache w)) <-> live u (trace w) = true) /\
  evictedBetween (trace w).

End GeoTiffTiles.

(** ** [GlTiledTextureGeoTiff] (lines 149-329 of the source file) *)

Module GeoTiff.
Import Ol.

Local Open Scope float_scope.

(** The constructor's [Options]. [tiff] is a GeoTIFF ([inl], the object has
    a [getImage] property) or a promise to one ([inr]). *)
Record Options : Type := {
  tiff : Geotiff.GeoTIFF + Promise Geotiff.GeoTIFF;
  fetchFuncName : string;
  sample : nat;
  fillValue : float;
  pool : Geotiff.Pool
}.

(** An instance. The fields that [loadImage_] assigns are [undefined]
    ([None]) until it has run. *)
Record GlTiledTextureGeoTiff : Type := {
  fetchFuncName_ : string;
  sample_ : nat;
  fillValue_ : float;
  pool_ : Geotiff.Pool;
  tiff_ : Promise Geotiff.GeoTIFFImage;
  width_ : option N;
  height_ : option N;
  bbox_ : option (list float);
  bboxWidth_ : option float;
  bboxHeight_ : option float;
  emptyData_ : option TypedArray
}.

(** A field read where a number is needed: [undefined] becomes NaN. *)
Definition numF (v : option float) : float :=
  match v with Some x => x | None => nan end.

Definition numN (v : option N) : float :=
  match v with Some n => N2F n | None => nan end.

(** [new Uint8Array(n)], [new Uint16Array(n)], [new Int16Array(n)] followed
    by [fill(v)]: every element is [v] converted to the element type. The
    conversion is written out for the three types [loadImage_] allocates; no
    array of another type is filled by the sources. *)
Definition coerce (ty : ElementType) (v : float) : float :=
  match ty with
  | Uint8 => Z2F (ToUint8 v)
  | Uint16 => Z2F (ToUint16 v)
  | Int16 => Z2F (ToInt16 v)
  | _ => v
  end.

Definition filled (ty : ElementType) (n : N) (v : float) : TypedArray :=
  {| elementType := ty; elements := repeat (coerce ty v) (N.to_nat n) |}.

(** Lines 190-194 of [loadImage_]. *)
Definition loadImage_dimensions (img : Geotiff.GeoTIFFImage) (this : GlTiledTextureGeoTiff)
    : GlTiledTextureGeoTiff :=
  let bbox := Geotiff.getBoundingBox img in
  {| fetchFuncName_ := fetchFuncName_ this;
     sample_ := sample_ this;
     fillValue_ := fillValue_ this;
     pool_ := pool_ this;
     tiff_ := tiff_ this;
     width_ := Some (Geotiff.getWidth img);
     height_ := Some (Geotiff.getHeight img);
     bbox_ := Some bbox;
     bboxWidth_ := Some (num_at bbox 2 - num_at bbox 0);
     bboxHeight_ := Some (num_at bbox 3 - num_at bbox 1);
     emptyData_ := emptyData_ this |}.

Definition withEmptyData (d : TypedArray) (this : GlTiledTextureGeoTiff) : GlTiledTextureGeoTiff :=
  {| fetchFuncName_ := fetchFuncName_ this;
     sample_ := sample_ this;
     fillValue_ := fillValue_ this;
     pool_ := pool_ this;
     tiff_ := tiff_ this;
     width_ := width_ this;
     height_ := height_ this;
     bbox_ := bbox_ this;
     bboxWidth_ := bboxWidth_ this;
     bboxHeight_ := bboxHeight_ this;
     emptyData_ := Some d |}.

Definition withTiff (p : Promise Geotiff.GeoTIFFImage) (this : GlTiledTextureGeoTiff)
    : GlTiledTextureGeoTiff :=
  {| fetchFuncName_ := fetchFuncName_ this;
     sample_ := sample_ this;
     fillValue_ := fillValue_ this;
     pool_ := pool_ this;
     tiff_ := p;
     width_ := width_ this;
     height_ := height_ this;
     bbox_ := bbox_ this;
     bboxWidth_ := bboxWidth_ this;
     bboxHeight_ := bboxHeight_ this;
     emptyData_ := emptyData_ this |}.

Definition tooFewSamples (requested available : nat) : string :=
  ("Requested sample " ++ string_of_Z (Z.of_nat requested) ++ ", but only "
   ++ string_of_Z (Z.of_nat available) ++ " samples are available")%string.

Definition noEmptyTile : string :=
  "FIXME: could not create empty tile data for GeoTIFF sample format, or unsupported (32-bit) format".

(** Lines 188-230. The typed array is allocated with [width_ * height_]
    elements; a length above [maxIndex] raises a [RangeError]. *)
Definition loadImage_ (img : Geotiff.GeoTIFFImage) (this : GlTiledTextureGeoTiff)
    : Promise Geotiff.GeoTIFFImage * GlTiledTextureGeoTiff :=
  let this1 := loadImage_dimensions img this in
  if Nat.leb (Geotiff.getSamplesPerPixel img) (sample_ this1) then
    (Rejected (Str (tooFewSamples (sample_ this1) (Geotiff.getSamplesPerPixel img))), this1)
  else
    let dir := Geotiff.getFileDirectory img in
    match Geotiff.BitsPerSample dir, Geotiff.SampleFormat dir with
    | Some bitsPerSample, Some sampleFormat =>
        let bits := nth_error bitsPerSample (sample_ this1) in
        let format := nth_error sampleFormat (sample_ this1) in
        let n := (Geotiff.getWidth img * Geotiff.getHeight img)%N in
        let allocate ty :=
          if (n <=? maxIndex)%N
          then (Fulfilled img, withEmptyData (filled ty n (fillValue_ this1)) this1)
          else (Rejected RangeError, this1) in
        if strictEq bits 8 && strictEq format 1 then allocate Uint8
        else if strictEq bits 16 && strictEq format 1 then allocate Uint16
        else if strictEq bits 16 && strictEq format 2 then allocate Int16
        else (Rejected (Str noEmptyTile), this1)
    | _, _ => (Rejected TypeError, this1)
    end.

(** Lines 172-175: the fields assigned before the image is asked for. *)
Definition constructor_fields (o : Options) : GlTiledTextureGeoTiff :=
  {| fetchFuncName_ := fetchFuncName o;
     sample_ := sample o;
     fillValue_ := fillValue o;
     pool_ := pool o;
     tiff_ := Pending;
     width_ := None; height_ := None; bbox_ := None;
     bboxWidth_ := None; bboxHeight_ := None; emptyData_ := None |}.

(** Lines 171-186. *)
Definition constructor (o : Options) : GlTiledTextureGeoTiff :=
  let this0 := constructor_fields o in
  let '(p, this1) :=
    match tiff o with
    | inr promise =>
        then_ promise
          (fun loadedTiff => then_ (Geotiff.getImage loadedTiff) loadImage_) this0
    | inl loaded =>
        then_ (Geotiff.getImage loaded) loadImage_ this0
    end in
  withTiff p this1.

(** The image promise on which the constructor chains [loadImage_]. *)
Definition image (o : Options) : Promise Geotiff.GeoTIFFImage :=
  match tiff o with
  | inr promise => thenP promise (fun loadedTiff => Geotiff.getImage loadedTiff)
  | inl loaded => Geotiff.getImage loaded
  end.

(** The pixel coordinates of lines 240-247. *)
Definition pixelX (this : GlTiledTextureGeoTiff) (bbox : list float) (x : float) : float :=
  ((x - num_at bbox 0) / numF (bboxWidth_ this)) * numN (width_ this).

Definition pixelY (this : GlTiledTextureGeoTiff) (bbox : list float) (y : float) : float :=
  ((y - num_at bbox 1) / numF (bboxHeight_ this)) * numN (height_ this).

(** Lines 235-269. The state threaded through is the trace. Reading
    [this.bbox_[0]] while [bbox_] is [undefined] raises a [TypeError]. *)
Definition getTiledData (this : GlTiledTextureGeoTiff) (p : TiledDataParameters)
    (tr : list Event) : Promise (option TypedArray) * list Event :=
  then_ (tiff_ this)
    (fun img tr =>
       match bbox_ this with
       | None => (Rejected TypeError, tr)
       | Some bbox =>
           let x1 := pixelX this bbox (num_at (tileExtent p) 2) in
           let x2 := pixelX this bbox (num_at (tileExtent p) 0) in
           let y1 := pixelY this bbox (num_at (tileExtent p) 3) in
           let y2 := pixelY this bbox (num_at (tileExtent p) 1) in
           if (x1 <? 0) || (numN (width_ this) <? x2) || (y1 <? 0) || (numN (height_ this) <? y2)
           then (Fulfilled (emptyData_ this), tr)
           else
             let opts :=
               {| Geotiff.window :=
                    Some (map Math_round
                            [x2; numN (height_ this) - y1; x1; numN (height_ this) - y2]);
                  Geotiff.width := nth_error (tileSize p) 0;
                  Geotiff.height := nth_error (tileSize p) 1;
                  Geotiff.resampleMethod := Some "nearest"%string;
                  Geotiff.samples := [sample_ this];
                  Geotiff.fillValue := fillValue_ this;
                  Geotiff.pool := pool_ this |} in
             (thenP (Geotiff.readRasters img opts)
                (fun rasters => Fulfilled (nth_error rasters 0)),
              (tr ++ [ReadRasters opts])%list)
       end)
    tr.

(** The callback of lines 282-323, run on the image [tiff_] resolved
    with. *)
Definition getFetchFunctionDef_callback (this : GlTiledTextureGeoTiff)
    (uniformName : string) (img : Geotiff.GeoTIFFImage) : Promise string :=
  let dir := Geotiff.getFileDirectory img in
  match Geotiff.BitsPerSample dir, Geotiff.SampleFormat dir with
  | Some bitsPerSample, Some sampleFormat =>
      let bits := nth_error bitsPerSample (sample_ this) in
      let format := nth_error sampleFormat (sample_ this) in
      let done body := Fulfilled (fetchFunction (fetchFuncName_ this) uniformName body) in
      if strictEq bits 8 && strictEq format 1 then
        done "return texel.x * 256.;"%string
      else if strictEq bits 8 && strictEq format 2 then
        done "return texel.x * 256.;"%string
      else if strictEq bits 16 && strictEq format 1 then
        done "return texel.x * 256. + texel.a * 65536.0;"%string
      else if strictEq bits 16 && strictEq format 2 then
        done "return texel.x * 256. + texel.a * 65536.0;"%string
      else if strictEq format 1 then
        Rejected (Str (notImplemented bits "uint"))
      else if strictEq format 2 then
        Rejected (Str (notImplemented bits "int"))
      else if strictEq format 2 then
        Rejected (Str (notImplemented bits "float"))
      else
        Rejected (Str (notImplemented bits "unknown uint/int/float"))
  | _, _ => Rejected TypeError
  end.

(** Lines 281-328. *)
Definition getFetchFunctionDef (this : GlTiledTextureGeoTiff) (uniformName : string)
    : Promise string :=
  thenP (tiff_ this) (getFetchFunctionDef_callback this uniformName).

End GeoTiff.

(** ** The setting of [examples/gltiles-geotiff-tiles.js] *)

Module Example.
Import Ol.

(** The template [.../rgbnir_16bit/{z}/{y}/{x}.tif] of line 42. *)
Definition tileUrl (c : option TileCoord) : Url :=
  match c with
  | None => None
  | Some (z, x, y) =>
      Some ("https://s2downloads.eox.at/demo/EOxCloudless/2019/rgbnir_16bit/"
            ++ string_of_Z z ++ "/" ++ string_of_Z y ++ "/" ++ string_of_Z x ++ ".tif")%string
  end.

(** The five zoom levels of the tile grid (lines 27-38); a coordinate
    outside of them has no tile. *)
Definition wrapTileCoord (c : TileCoord) : option TileCoord :=
  let '(z, x, y) := c in
  if ((0 <=? z) && (z <=? 4) && (0 <=? x) && (0 <=? y))%Z then Some c else None.

Definition tiffTiles : TileImage := {|
  getTileCoordForTileUrlFunction := wrapTileCoord;
  tileUrlFunction := tileUrl;
  tileGrid := TileGridRef 0;
  getProjection := ProjectionRef 4326
|}.

Definition pool : Geotiff.Pool := Geotiff.PoolRef 0.

(** A 16-bit, 4-sample image of 2 by 1 pixels covering the whole grid; it
    answers a read with one raster per requested sample. *)
Definition image16 : Geotiff.GeoTIFFImage := {|
  Geotiff.getWidth := 2;
  Geotiff.getHeight := 1;
  Geotiff.getBoundingBox := [(-180); (-90); 180; 90]%float;
  Geotiff.getSamplesPerPixel := 4;
  Geotiff.getFileDirectory :=
    {| Geotiff.BitsPerSample := Some [16; 16; 16; 16]%Z;
       Geotiff.SampleFormat := Some [1; 1; 1; 1]%Z |};
  Geotiff.readRasters := fun opts =>
    Fulfilled (map (fun _ => {| elementType := Uint16; elements := [2000; 4000]%float |})
                   (Geotiff.samples opts))
|}.

Definition fromUrl (u : Url) : Promise Geotiff.GeoTIFF :=
  match u with
  | Some _ => Fulfilled {| Geotiff.getImage := Fulfilled image16 |}
  | None => Rejected (Foreign 0)
  end.

Definition channel (name : string) (s : nat) : GeoTiffTiles.Options := {|
  GeoTiffTiles.xyz := tiffTiles;
  GeoTiffTiles.geotiffFactory := fromUrl;
  GeoTiffTiles.fetchFuncName := name;
  GeoTiffTiles.sample := s;
  GeoTiffTiles.fillValue := (-999)%float;
  GeoTiffTiles.pool := pool
|}.

(** [tcr] and [tcg] (lines 50-65), created in this order. *)
Definition tcr : GeoTiffTiles.GlTiledTextureGeoTiffTiles :=
  fst (GeoTiffTiles.constructor (channel "getTCR" 0) GeoTiffTiles.initialWorld).

Definition world1 : GeoTiffTiles.World :=
  GeoTiffTiles.run [GeoTiffTiles.Construct (channel "getTCR" 0)] GeoTiffTiles.initialWorld.

Definition tcg : GeoTiffTiles.GlTiledTextureGeoTiffTiles :=
  fst (GeoTiffTiles.constructor (channel "getTCG" 1) world1).

Definition world2 : GeoTiffTiles.World :=
  GeoTiffTiles.run [GeoTiffTiles.Construct (channel "getTCG" 1)] world1.

Definition request (z x y : Z) : TiledDataParameters := {|
  paramTileGrid := Some (TileGridRef 0);
  tileCoord := (z, x, y);
  tileSize := [1024; 1024]%float;
  tileExtent := [(-180); (-90); 180; 90]%float
|}.

(** An image like [image16] whose samples have the given depth and format. *)
Definition imageOf (bits format : Z) : Geotiff.GeoTIFFImage := {|
  Geotiff.getWidth := 2;
  Geotiff.getHeight := 1;
  Geotiff.getBoundingBox := [(-180); (-90); 180; 90]%float;
  Geotiff.getSamplesPerPixel := 4;
  Geotiff.getFileDirectory :=
    {| Geotiff.BitsPerSample := Some [bits; bits; bits; bits];
       Geotiff.SampleFormat := Some [format; format; format; format] |};
  Geotiff.readRasters := Geotiff.readRasters image16
|}.

(** A [GlTiledTextureGeoTiff] over a GeoTIFF that is already loaded, with
    the fill value of the example. *)
Definition single (img : Geotiff.GeoTIFFImage) : GeoTiff.Options := {|
  GeoTiff.tiff := inl {| Geotiff.getImage := Fulfilled img |};
  GeoTiff.fetchFuncName := "getData";
  GeoTiff.sample := 0;
  GeoTiff.fillValue := (-999)%float;
  GeoTiff.pool := pool
|}.

(** A tile source of 32-bit float GeoTIFFs, and an instance over it. *)
Definition floatTiles : GeoTiffTiles.Options := {|
  GeoTiffTiles.xyz := tiffTiles;
  GeoTiffTiles.geotiffFactory := fun _ =>
    Fulfilled {| Geotiff.getImage := Fulfilled (imageOf 32 3) |};
  GeoTiffTiles.fetchFuncName := "getData";
  GeoTiffTiles.sample := 0;
  GeoTiffTiles.fillValue := (-999)%float;
  GeoTiffTiles.pool := pool
|}.

Definition dem : GeoTiffTiles.GlTiledTextureGeoTiffTiles :=
  fst (GeoTiffTiles.constructor floatTiles GeoTiffTiles.initialWorld).

(** [tcb] and [nir] (lines 66-81), created after [tcr] and [tcg]. *)
Definition tcb : GeoTiffTiles.GlTiledTextureGeoTiffTiles :=
  fst (GeoTiffTiles.constructor (channel "getTCB" 2) world2).

Definition world3 : GeoTiffTiles.World :=
  GeoTiffTiles.run [GeoTiffTiles.Construct (channel "getTCB" 2)] world2.

Definition nir : GeoTiffTiles.GlTiledTextureGeoTiffTiles :=
  fst (GeoTiffTiles.constructor (channel "getNIR" 3) world3).

Definition world4 : GeoTiffTiles.World :=
  GeoTiffTiles.run [GeoTiffTiles.Construct (channel "getNIR" 3)] world3.

(** A tile server that is down, and a texture over it. *)
Definition offline : GeoTiffTiles.Options := {|
  GeoTiffTiles.xyz := tiffTiles;
  GeoTiffTiles.geotiffFactory := fun _ => Rejected (Foreign 404);
  GeoTiffTiles.fetchFuncName := "getData";
  GeoTiffTiles.sample := 0;
  GeoTiffTiles.fillValue := (-999)%float;
  GeoTiffTiles.pool := pool
|}.

Definition broken : GeoTiffTiles.GlTiledTextureGeoTiffTiles :=
  fst (GeoTiffTiles.constructor offline GeoTiffTiles.initialWorld).

(** An image without the SampleFormat tag. *)
Definition untagged : Geotiff.GeoTIFFImage := {|
  Geotiff.getWidth := 2;
  Geotiff.getHeight := 1;
  Geotiff.getBoundingBox := [(-180); (-90); 180; 90]%float;
  Geotiff.getSamplesPerPixel := 3;
  Geotiff.getFileDirectory :=
    {| Geotiff.BitsPerSample := Some [8; 8; 8]%Z; Geotiff.SampleFormat := None |};
  Geotiff.readRasters := Geotiff.readRasters image16
|}.

(** A [GlTiledTextureGeoTiff] asking for the sample of index [s]. *)
Definition singleSample (img : Geotiff.GeoTIFFImage) (s : nat) : GeoTiff.Options := {|
  GeoTiff.tiff := inl {| Geotiff.getImage := Fulfilled img |};
  GeoTiff.fetchFuncName := "getData";
  GeoTiff.sample := s;
  GeoTiff.fillValue := (-999)%float;
  GeoTiff.pool := pool
|}.

(** A tile that covers the image, and one to the east of it. *)
Definition inside : TiledDataParameters := request 0 0 0.

Definition outside : TiledDataParameters := {|
  paramTileGrid := Some (TileGridRef 0);
  tileCoord := (0, 1, 0)%Z;
  tileSize := [1024; 1024]%float;
  tileExtent := [270; (-90); 630; 90]%float
|}.

(** Sixteen requests for different tiles, then one more. *)
Definition setup : list GeoTiffTiles.Action :=
  [GeoTiffTiles.Construct (channel "getTCR" 0); GeoTiffTiles.Construct (channel "getTCG" 1)].

Definition sixteen : list GeoTiffTiles.Action :=
  map (fun i => GeoTiffTiles.Request (tcr, request 4 (Z.of_nat i) 0)) (seq 0 16).

Definition seventeenth : GeoTiffTiles.Call := (tcg, request 4 16 0).

End Example.

(** ** Histories of requests *)

(** The keys in the order of their last use, after one more use of [u]. *)
Definition touch (u : Ol.Url) (l : list Ol.Url) : list Ol.Url :=
  filter (fun a => if Ol.Url_eq_dec u a then false else true) l ++ [u].

(** The distinct URLs of a history, from the least to the most recently
    requested. *)
Definition recency (h : list Ol.Url) : list Ol.Url :=
  fold_left (fun l u => touch u l) h [].

(** The last [n] elements of a list (the whole list when it is shorter). *)
Definition lastn {A : Type} (n : nat) (l : list A) : list A :=
  skipn (List.length l - n) l.

(** The distinct URLs of a history, in the order of their first request. *)
Definition firstRequests (h : list Ol.Url) : list Ol.Url :=
  fold_left (fun l u => if in_dec Ol.Url_eq_dec u l then l else l ++ [u]) h [].

(** An entry made by a request of the sequence: its promise is what the
    factory of the requesting instance returned for the entry's key. *)
Definition madeBy (acts : list GeoTiffTiles.Action)
    (e : Ol.Url * Promise Geotiff.GeoTIFF) : Prop :=
  exists c,
    In (GeoTiffTiles.Request c) acts /\ GeoTiffTiles.callUrl c = fst e /\
    snd e = GeoTiffTiles.factory_ (fst c) (fst e).

(** * Properties *)

(** ** The number helpers on known values *)

Example Math_round_values :
  Math_round 2.5 = 3%float /\ Math_round (-2.5) = (-2)%float /\
  Math_round 0.25 = 0%float /\ Math_round (-0.25) = neg_zero /\
  Math_round infinity = infinity.
Proof. vm_compute. repeat split. Qed.

Example conversions_of_minus_999 :
  ToUint8 (-999) = 25%Z /\ ToUint16 (-999) = 64537%Z /\ ToInt16 (-999) = (-999)%Z /\
  ToUint8 nan = 0%Z /\ ToInt16 40000.75 = (-25536)%Z.
Proof. vm_compute. repeat split. Qed.

Example show_values : show (Some 16%Z) = "16" /\ show None = "undefined".
Proof. split; reflexivity. Qed.

(** ** Facts about the cache *)

Section LRUCacheFacts.

Variables K V : Type.
Variable dec : forall a b : K, {a = b} + {a <> b}.

Implicit Types (c : LRUCache.t K V) (k : K) (v : V).

Lemma hasKey_true k (e : K * V) : LRUCache.hasKey dec k e = true <-> k = fst e.
Proof.
  unfold LRUCache.hasKey. destruct (dec k (fst e)); split; intro H; congruence.
Qed.

Lemma hasKey_false k (e : K * V) : LRUCache.hasKey dec k e = false <-> k <> fst e.
Proof.
  unfold LRUCache.hasKey. destruct (dec k (fst e)); split; intro H; congruence.
Qed.

Lemma containsKey_In k c : LRUCache.containsKey dec k c = true <-> In k (LRUCache.keys c).
Proof.
  unfold LRUCache.containsKey, LRUCache.keys. rewrite existsb_exists, in_map_iff.
  split.
  - intros [e [Hin He]]. apply hasKey_true in He. exists e. auto.
  - intros [e [He Hin]]. exists e. split; [assumption|]. apply hasKey_true. auto.
Qed.

Lemma containsKey_not_In k c : LRUCache.containsKey dec k c = false <-> ~ In k (LRUCache.keys c).
Proof.
  rewrite <- containsKey_In. destruct (LRUCache.containsKey dec k c); split; congruence.
Qed.

Lemma find_last (f : K * V -> bool) (l : list (K * V)) (e : K * V) :
  find f (l ++ [e]) = match find f l with
                      | Some x => Some x
                      | None => if f e then Some e else None
                      end.
Proof.
  induction l as [|a l IH]; simpl.
  - reflexivity.
  - destruct (f a); [reflexivity | exact IH].
Qed.

Lemma find_absent k (l : list (K * V)) :
  ~ In k (map fst l) -> find (LRUCache.hasKey dec k) l = None.
Proof.
  induction l as [|a l IH]; simpl; intro H.
  - reflexivity.
  - destruct (LRUCache.hasKey dec k a) eqn:E.
    + apply hasKey_true in E. exfalso. apply H. left. congruence.
    + apply IH. intro Hin. apply H. right. exact Hin.
Qed.

Lemma find_present k (l : list (K * V)) :
  In k (map fst l) -> exists v, find (LRUCache.hasKey dec k) l = Some (k, v).
Proof.
  induction l as [|[a x] l IH]; simpl; intro H.
  - contradiction.
  - destruct (LRUCache.hasKey dec k (a, x)) eqn:E.
    + apply hasKey_true in E. simpl in E. subst a. exists x. reflexivity.
    + apply IH. destruct H as [H|H]; [|exact H].
      apply hasKey_false in E. simpl in E. congruence.
Qed.

Lemma lookup_absent k c :
  LRUCache.containsKey dec k c = false -> LRUCache.lookup dec k c = None.
Proof.
  intro H. apply containsKey_not_In in H. unfold LRUCache.lookup.
  rewrite (find_absent k _ H). reflexivity.
Qed.

Lemma lookup_present k c :
  LRUCache.containsKey dec k c = true -> exists v, LRUCache.lookup dec k c = Some v.
Proof.
  intro H. apply containsKey_In in H. destruct (find_present k _ H) as [v Hv].
  exists v. unfold LRUCache.lookup. rewrite Hv. reflexivity.
Qed.

Lemma lookup_containsKey k c v :
  LRUCache.lookup dec k c = Some v -> LRUCache.containsKey dec k c = true.
Proof.
  intro H. destruct (LRUCache.containsKey dec k c) eqn:E; [reflexivity|].
  rewrite (lookup_absent _ _ E) in H. discriminate.
Qed.

(** [get] on a key that is present: the stored value, and the entry moved
    to the most recently used end. *)
Lemma get_present k c v :
  LRUCache.lookup dec k c = Some v ->
  LRUCache.get dec k c =
    (Some v,
     {| LRUCache.highWaterMark := LRUCache.highWaterMark c;
        LRUCache.entries :=
          filter (fun e => negb (LRUCache.hasKey dec k e)) (LRUCache.entries c) ++ [(k, v)] |}).
Proof.
  unfold LRUCache.lookup, LRUCache.get.
  destruct (find (LRUCache.hasKey dec k) (LRUCache.entries c)) as [[a x]|]; simpl; intro H.
  - congruence.
  - discriminate.
Qed.

Lemma filter_other_keys k (l : list (K * V)) :
  map fst (filter (fun e => negb (LRUCache.hasKey dec k e)) l)
  = filter (fun a => if dec k a then false else true) (map fst l).
Proof.
  induction l as [|[a x] l IH]; simpl.
  - reflexivity.
  - unfold LRUCache.hasKey at 1. simpl. destruct (dec k a); simpl; rewrite IH; reflexivity.
Qed.

Lemma lookup_last k v (l : list (K * V)) h :
  ~ In k (map fst l) ->
  LRUCache.lookup dec k {| LRUCache.highWaterMark := h; LRUCache.entries := l ++ [(k, v)] |}
  = Some v.
Proof.
  intro H. unfold LRUCache.lookup. simpl. rewrite find_last, (find_absent k l H).
  unfold LRUCache.hasKey. simpl. destruct (dec k k); [reflexivity | congruence].
Qed.

Lemma not_in_filter_other k (l : list (K * V)) :
  ~ In k (map fst (filter (fun e => negb (LRUCache.hasKey dec k e)) l)).
Proof.
  rewrite filter_other_keys. intro H. apply filter_In in H. destruct H as [_ H].
  destruct (dec k k); [discriminate | congruence].
Qed.

End LRUCacheFacts.

(** ** One call of [GlTiledTextureGeoTiffTiles.getTiledData] *)

Section OneCall.

Import Ol GeoTiffTiles.

Variable this : GlTiledTextureGeoTiffTiles.

Lemma getTiledData_parts (p : TiledDataParameters) (w : World) :
  getTiledData this p w =
  getTiledData_decode this p
    (fst (getTiledData_instance this (callUrl (this, p)) w))
    (snd (getTiledData_instance this (callUrl (this, p)) w)).
Proof.
  unfold getTiledData, callUrl. simpl.
  destruct (getTiledData_instance this _ w) as [instance w1]. reflexivity.
Qed.

(** The chain of lines 67-83 leaves the cache alone, and calls
    [readRasters] once if the image is obtained. *)
Lemma decode_effects (p : TiledDataParameters) (instance : Promise Geotiff.GeoTIFF) (w : World) :
  let r := getTiledData_decode this p instance w in
  fst r = decoded this p instance /\
  geotiffCache (snd r) = geotiffCache w /\
  exists evs, trace (snd r) = trace w ++ evs /\
              factoryCalls evs = [] /\ evictions evs = [] /\
              readRastersCalls evs =
                match thenP instance (fun tiff => Geotiff.getImage tiff) with
                | Fulfilled _ => [getTiledData_options this p]
                | _ => []
                end.
Proof.
  unfold getTiledData_decode, decoded.
  destruct (thenP instance (fun tiff => Geotiff.getImage tiff)) as [|img|r]; simpl.
  - repeat split. exists []. rewrite app_nil_r. repeat split.
  - repeat split.
    + unfold resolveAnyTile_. destruct (deferred w (anyTile_ this)); reflexivity.
    + exists [ReadRasters (getTiledData_options this p)]. repeat split.
      unfold resolveAnyTile_. destruct (deferred w (anyTile_ this)); reflexivity.
  - repeat split. exists []. rewrite app_nil_r. repeat split.
Qed.

(** The three ways lines 56-65 can go, for a cache of capacity at least 1. *)
Lemma instance_cases (url : Url) (w : World) :
  1 <= LRUCache.highWaterMark (geotiffCache w) ->
  let c := geotiffCache w in
  let r := getTiledData_instance this url w in
  LRUCache.highWaterMark (geotiffCache (snd r)) = LRUCache.highWaterMark c /\
  deferred (snd r) = deferred w /\
  ((exists v,
      LRUCache.containsKey Url_eq_dec url c = true /\
      LRUCache.lookup Url_eq_dec url c = Some v /\
      fst r = v /\
      trace (snd r) = trace w /\
      LRUCache.entries (geotiffCache (snd r)) =
        filter (fun e => negb (LRUCache.hasKey Url_eq_dec url e)) (LRUCache.entries c)
        ++ [(url, v)])
   \/
   (LRUCache.containsKey Url_eq_dec url c = false /\
    fst r = factory_ this url /\
    LRUCache.getCount c < LRUCache.highWaterMark c /\
    trace (snd r) = trace w ++ [FactoryCall url] /\
    LRUCache.entries (geotiffCache (snd r)) = LRUCache.entries c ++ [(url, factory_ this url)])
   \/
   (exists e0 rest,
      LRUCache.containsKey Url_eq_dec url c = false /\
      fst r = factory_ this url /\
      LRUCache.highWaterMark c <= LRUCache.getCount c /\
      LRUCache.entries c = e0 :: rest /\
      trace (snd r) = trace w ++ [FactoryCall url; CacheEvict (fst e0)] /\
      LRUCache.entries (geotiffCache (snd r)) = rest ++ [(url, factory_ this url)])).
Proof.
  intros Hcap c r. subst c r. unfold getTiledData_instance.
  destruct (LRUCache.containsKey Url_eq_dec url (geotiffCache w)) eqn:Hc.
  - destruct (lookup_present _ _ _ _ _ Hc) as [v Hv].
    rewrite (get_present _ _ _ _ _ _ Hv). simpl.
    repeat split. left. exists v. repeat split; assumption.
  - unfold LRUCache.canExpireCache, LRUCache.getCount, LRUCache.set. simpl.
    rewrite length_app. simpl.
    destruct (Nat.ltb_spec (LRUCache.highWaterMark (geotiffCache w))
                (List.length (LRUCache.entries (geotiffCache w)) + 1)) as [Hlt|Hge].
    + unfold LRUCache.pop. simpl.
      destruct (LRUCache.entries (geotiffCache w)) as [|[k0 v0] rest] eqn:He; simpl.
      * simpl in Hlt. lia.
      * repeat split. right. right. exists (k0, v0), rest.
        simpl in *. rewrite <- app_assoc. simpl. repeat split. lia.
    + simpl. repeat split. right. left. unfold LRUCache.getCount. repeat split. lia.
Qed.

Lemma factoryCalls_app (a b : list Event) : factoryCalls (a ++ b) = factoryCalls a ++ factoryCalls b.
Proof. unfold factoryCalls. apply flat_map_app. Qed.

Lemma evictions_app (a b : list Event) : evictions (a ++ b) = evictions a ++ evictions b.
Proof. unfold evictions. apply flat_map_app. Qed.

Lemma readRastersCalls_app (a b : list Event) :
  readRastersCalls (a ++ b) = readRastersCalls a ++ readRastersCalls b.
Proof. unfold readRastersCalls. apply flat_map_app. Qed.

(** C1. For every call of [getTiledData] (on a cache of the capacity the
    module gives it): the rest of the call hangs on one GeoTIFF promise,
    which is stored under the computed URL when the call returns. If the
    cache already had the URL as a key, this promise is the cached one and
    the factory is not called; if not, it is the result of the factory,
    which is called exactly once, on that URL. *)
Theorem getTiledData_reuses_or_creates (p : TiledDataParameters) (w : World) :
  LRUCache.highWaterMark (geotiffCache w) = 16 ->
  let url :=
    tileUrlFunction (xyz_ this) (getTileCoordForTileUrlFunction (xyz_ this) (tileCoord p)) in
  let r := getTiledData this p w in
  exists instance evs,
    trace (snd r) = trace w ++ evs /\
    fst r = decoded this p instance /\
    LRUCache.lookup Url_eq_dec url (geotiffCache (snd r)) = Some instance /\
    (LRUCache.containsKey Url_eq_dec url (geotiffCache w) = true ->
       LRUCache.lookup Url_eq_dec url (geotiffCache w) = Some instance /\
       factoryCalls evs = []) /\
    (LRUCache.containsKey Url_eq_dec url (geotiffCache w) = false ->
       instance = factory_ this url /\ factoryCalls evs = [url]).
Proof.
  intros Hcap url r. subst r. rewrite getTiledData_parts.
  change (callUrl (this, p)) with url.
  assert (H1 : 1 <= LRUCache.highWaterMark (geotiffCache w)) by lia.
  destruct (instance_cases url w H1) as (_ & _ & Hcases).
  destruct (decode_effects p (fst (getTiledData_instance this url w))
              (snd (getTiledData_instance this url w)))
    as (Hfst & Hcache & evs & Htr & Hf & _ & _).
  rewrite Hfst, Hcache, Htr.
  destruct Hcases as [(v & Hc & Hv & Hi & Ht & He)
                     |[(Hc & Hi & _ & Ht & He)
                      |(e0 & rest & Hc & Hi & _ & Hent & Ht & He)]].
  - exists v, evs. rewrite Hi, Ht. repeat split.
    + destruct (geotiffCache (snd (getTiledData_instance this url w))) as [h es].
      simpl in He. subst es. apply lookup_last. apply not_in_filter_other.
    + exact Hv.
    + exact Hf.
    + congruence.
    + congruence.
  - exists (factory_ this url), ([FactoryCall url] ++ evs).
    rewrite Hi, Ht, <- app_assoc. repeat split.
    + destruct (geotiffCache (snd (getTiledData_instance this url w))) as [h es].
      simpl in He. subst es. apply lookup_last.
      apply containsKey_not_In in Hc. exact Hc.
    + congruence.
    + congruence.
    + rewrite factoryCalls_app, Hf. reflexivity.
  - exists (factory_ this url), ([FactoryCall url; CacheEvict (fst e0)] ++ evs).
    rewrite Hi, Ht, <- app_assoc. repeat split.
    + destruct (geotiffCache (snd (getTiledData_instance this url w))) as [h es].
      simpl in He. subst es. apply lookup_last.
      apply containsKey_not_In in Hc. unfold LRUCache.keys in Hc. rewrite Hent in Hc.
      simpl in Hc. intro Hin. apply Hc. right. exact Hin.
    + congruence.
    + congruence.
    + rewrite factoryCalls_app, Hf. reflexivity.
Qed.

Lemma in_keys_filter (f : Url * Promise Geotiff.GeoTIFF -> bool) (k : Url)
    (l : list (Url * Promise Geotiff.GeoTIFF)) :
  In k (map fst (filter f l)) -> In k (map fst l).
Proof.
  rewrite !in_map_iff. intros [e [He Hin]]. apply filter_In in Hin.
  exists e. tauto.
Qed.

(** C5. The URL under which the call keys the cache and on which it calls
    the factory is [tileUrlFunction (getTileCoordForTileUrlFunction
    tileCoord)] of the instance's tile source: after the call that URL is a
    key of the cache, no other key has been added, the factory has been
    called on no other URL, and on that URL if it was not a key before. *)
Theorem getTiledData_keys_on_tile_source_url (p : TiledDataParameters) (w : World) :
  LRUCache.highWaterMark (geotiffCache w) = 16 ->
  let url :=
    tileUrlFunction (xyz_ this) (getTileCoordForTileUrlFunction (xyz_ this) (tileCoord p)) in
  let r := getTiledData this p w in
  LRUCache.containsKey Url_eq_dec url (geotiffCache (snd r)) = true /\
  (forall k, LRUCache.containsKey Url_eq_dec k (geotiffCache (snd r)) = true ->
             k = url \/ LRUCache.containsKey Url_eq_dec k (geotiffCache w) = true) /\
  exists evs,
    trace (snd r) = trace w ++ evs /\
    (forall u, In u (factoryCalls evs) -> u = url) /\
    (LRUCache.containsKey Url_eq_dec url (geotiffCache w) = false ->
       factoryCalls evs = [url]).
Proof.
  intros Hcap url r. subst r. rewrite getTiledData_parts.
  change (callUrl (this, p)) with url.
  assert (H1 : 1 <= LRUCache.highWaterMark (geotiffCache w)) by lia.
  destruct (instance_cases url w H1) as (_ & _ & Hcases).
  destruct (decode_effects p (fst (getTiledData_instance this url w))
              (snd (getTiledData_instance this url w)))
    as (_ & Hcache & evs & Htr & Hf & _ & _).
  rewrite Hcache, Htr.
  assert (Hlast : forall l v,
            LRUCache.entries (geotiffCache (snd (getTiledData_instance this url w)))
              = l ++ [(url, v)] ->
            LRUCache.containsKey Url_eq_dec url
              (geotiffCache (snd (getTiledData_instance this url w))) = true).
  { intros l v He. apply containsKey_In. unfold LRUCache.keys. rewrite He, map_app.
    apply in_or_app. right. left. reflexivity. }
  assert (Hkeys : forall l v,
            LRUCache.entries (geotiffCache (snd (getTiledData_instance this url w)))
              = l ++ [(url, v)] ->
            (forall k, In k (map fst l) -> In k (LRUCache.keys (geotiffCache w))) ->
            forall k, LRUCache.containsKey Url_eq_dec k
                        (geotiffCache (snd (getTiledData_instance this url w))) = true ->
                      k = url \/ LRUCache.containsKey Url_eq_dec k (geotiffCache w) = true).
  { intros l v He Hsub k Hk. apply containsKey_In in Hk. unfold LRUCache.keys in Hk.
    rewrite He, map_app in Hk. apply in_app_or in Hk. destruct Hk as [Hk|Hk].
    - right. apply containsKey_In. apply Hsub. exact Hk.
    - left. simpl in Hk. destruct Hk as [Hk|[]]. congruence. }
  destruct Hcases as [(v & Hc & Hv & Hi & Ht & He)
                     |[(Hc & Hi & _ & Ht & He)
                      |(e0 & rest & Hc & Hi & _ & Hent & Ht & He)]].
  - split; [exact (Hlast _ _ He)|]. split.
    + apply (Hkeys _ _ He). intros k Hk. apply in_keys_filter in Hk. exact Hk.
    + exists evs. rewrite Ht. repeat split.
      * rewrite Hf. intros u [].
      * congruence.
  - split; [exact (Hlast _ _ He)|]. split.
    + apply (Hkeys _ _ He). intros k Hk. exact Hk.
    + exists ([FactoryCall url] ++ evs). rewrite Ht, <- app_assoc. repeat split.
      * rewrite factoryCalls_app, Hf. simpl. intros u [Hu|[]]. congruence.
      * intros _. rewrite factoryCalls_app, Hf. reflexivity.
  - split; [exact (Hlast _ _ He)|]. split.
    + apply (Hkeys _ _ He). intros k Hk. unfold LRUCache.keys. rewrite Hent.
      right. exact Hk.
    + exists ([FactoryCall url; CacheEvict (fst e0)] ++ evs).
      rewrite Ht, <- app_assoc. repeat split.
      * rewrite factoryCalls_app, Hf. simpl. intros u [Hu|[]]. congruence.
      * intros _. rewrite factoryCalls_app, Hf. reflexivity.
Qed.

(** The promise lines 56-65 hand to the rest of the call. *)
Lemma instance_promise (url : Url) (w : World) :
  fst (getTiledData_instance this url w) =
  if LRUCache.containsKey Url_eq_dec url (geotiffCache w)
  then match LRUCache.lookup Url_eq_dec url (geotiffCache w) with
       | Some v => v
       | None => Rejected TypeError
       end
  else factory_ this url.
Proof.
  unfold getTiledData_instance.
  destruct (LRUCache.containsKey Url_eq_dec url (geotiffCache w)) eqn:Hc.
  - destruct (lookup_present _ _ _ _ _ Hc) as [v Hv].
    rewrite (get_present _ _ _ _ _ _ Hv), Hv. reflexivity.
  - simpl. destruct (LRUCache.canExpireCache _); [|reflexivity].
    destruct (LRUCache.pop _) as [[[k v]|] c2]; reflexivity.
Qed.

Lemma instance_trace (url : Url) (w : World) :
  exists evs, trace (snd (getTiledData_instance this url w)) = trace w ++ evs /\
              readRastersCalls evs = [].
Proof.
  unfold getTiledData_instance.
  destruct (LRUCache.containsKey Url_eq_dec url (geotiffCache w)).
  - exists []. rewrite app_nil_r.
    destruct (LRUCache.get _ _ _) as [[v|] c]; split; reflexivity.
  - simpl. destruct (LRUCache.canExpireCache _).
    + destruct (LRUCache.pop _) as [[[k v]|] c2]; simpl.
      * exists [FactoryCall url; CacheEvict k]. rewrite <- app_assoc. split; reflexivity.
      * exists [FactoryCall url]. split; reflexivity.
    + exists [FactoryCall url]. split; reflexivity.
Qed.

(** C6. When the decode succeeds (the GeoTIFF promise for the URL, cached
    or fresh, gives a GeoTIFF, whose image is obtained and read), the call
    resolves to the first raster that [readRasters] returned, and
    [readRasters] has been called once, with width [tileSize[0]], height
    [tileSize[1]], the one-element list [[sample]], the configured fill
    value and the configured pool. *)
Theorem getTiledData_resolves_to_first_raster (p : TiledDataParameters) (w : World)
    (tiff : Geotiff.GeoTIFF) (img : Geotiff.GeoTIFFImage) (rasters : list TypedArray) :
  let url :=
    tileUrlFunction (xyz_ this) (getTileCoordForTileUrlFunction (xyz_ this) (tileCoord p)) in
  let opts :=
    {| Geotiff.window := None;
       Geotiff.width := nth_error (tileSize p) 0;
       Geotiff.height := nth_error (tileSize p) 1;
       Geotiff.resampleMethod := None;
       Geotiff.samples := [sample_ this];
       Geotiff.fillValue := fillValue_ this;
       Geotiff.pool := pool_ this |} in
  (LRUCache.lookup Url_eq_dec url (geotiffCache w) = Some (Fulfilled tiff) \/
   (LRUCache.containsKey Url_eq_dec url (geotiffCache w) = false /\
    factory_ this url = Fulfilled tiff)) ->
  Geotiff.getImage tiff = Fulfilled img ->
  Geotiff.readRasters img opts = Fulfilled rasters ->
  let r := getTiledData this p w in
  fst r = Fulfilled (hd_error rasters) /\
  exists evs, trace (snd r) = trace w ++ evs /\ readRastersCalls evs = [opts].
Proof.
  intros url opts Hinst Himg Hread r. subst r. rewrite getTiledData_parts.
  change (callUrl (this, p)) with url.
  assert (Hi : fst (getTiledData_instance this url w) = Fulfilled tiff).
  { rewrite instance_promise. destruct Hinst as [Hl|[Hc Hf]].
    - rewrite (lookup_containsKey _ _ _ _ _ _ Hl), Hl. reflexivity.
    - rewrite Hc. exact Hf. }
  destruct (decode_effects p (fst (getTiledData_instance this url w))
              (snd (getTiledData_instance this url w)))
    as (Hfst & _ & evs & Htr & _ & _ & Hr).
  destruct (instance_trace url w) as (evs0 & Htr0 & Hr0).
  rewrite Hfst, Htr, Htr0, Hi in *. split.
  - unfold decoded. simpl. rewrite Himg. simpl.
    change (getTiledData_options this p) with opts. rewrite Hread. simpl.
    destruct rasters; reflexivity.
  - exists (evs0 ++ evs). rewrite app_assoc. split; [reflexivity|].
    rewrite readRastersCalls_app, Hr0, Hr. simpl. rewrite Himg. reflexivity.
Qed.

End OneCall.

Lemma getTiledData_reuses_or_creates_witness :
  let this := Example.tcg in
  let p := Example.request 0 0 0 in
  let w := GeoTiffTiles.run [GeoTiffTiles.Request (Example.tcr, Example.request 0 0 0)] Example.world2 in
  let url := Example.tileUrl (Example.wrapTileCoord (0, 0, 0)%Z) in
  let r := GeoTiffTiles.getTiledData this p w in
  LRUCache.containsKey Ol.Url_eq_dec url (GeoTiffTiles.geotiffCache w) = true /\
  exists instance evs,
    GeoTiffTiles.trace (snd r) = GeoTiffTiles.trace w ++ evs /\
    fst r = GeoTiffTiles.decoded this p instance /\
    LRUCache.lookup Ol.Url_eq_dec url (GeoTiffTiles.geotiffCache (snd r)) = Some instance /\
    (LRUCache.containsKey Ol.Url_eq_dec url (GeoTiffTiles.geotiffCache w) = true ->
       LRUCache.lookup Ol.Url_eq_dec url (GeoTiffTiles.geotiffCache w) = Some instance /\
       factoryCalls evs = []) /\
    (LRUCache.containsKey Ol.Url_eq_dec url (GeoTiffTiles.geotiffCache w) = false ->
       instance = GeoTiffTiles.factory_ this url /\ factoryCalls evs = [url]).
Proof.
  split.
  - vm_compute. reflexivity.
  - apply (getTiledData_reuses_or_creates Example.tcg (Example.request 0 0 0)
             (GeoTiffTiles.run [GeoTiffTiles.Request (Example.tcr, Example.request 0 0 0)] Example.world2)).
    reflexivity.
Defined.

Lemma getTiledData_keys_on_tile_source_url_witness :
  let this := Example.tcr in
  let p := Example.request 1 0 1 in
  let w := Example.world2 in
  let url := Example.tileUrl (Example.wrapTileCoord (1, 0, 1)%Z) in
  let r := GeoTiffTiles.getTiledData this p w in
  LRUCache.containsKey Ol.Url_eq_dec url (GeoTiffTiles.geotiffCache (snd r)) = true /\
  (forall k, LRUCache.containsKey Ol.Url_eq_dec k (GeoTiffTiles.geotiffCache (snd r)) = true ->
             k = url \/ LRUCache.containsKey Ol.Url_eq_dec k (GeoTiffTiles.geotiffCache w) = true) /\
  exists evs,
    GeoTiffTiles.trace (snd r) = GeoTiffTiles.trace w ++ evs /\
    (forall u, In u (factoryCalls evs) -> u = url) /\
    (LRUCache.containsKey Ol.Url_eq_dec url (GeoTiffTiles.geotiffCache w) = false ->
       factoryCalls evs = [url]).
Proof.
  apply (getTiledData_keys_on_tile_source_url Example.tcr (Example.request 1 0 1) Example.world2).
  reflexivity.
Defined.

Lemma getTiledData_resolves_to_first_raster_witness :
  let this := Example.tcg in
  let p := Example.request 0 0 0 in
  let w := Example.world2 in
  let r := GeoTiffTiles.getTiledData this p w in
  fst r = Fulfilled (Some {| elementType := Uint16; elements := [2000; 4000]%float |}) /\
  exists evs,
    GeoTiffTiles.trace (snd r) = GeoTiffTiles.trace w ++ evs /\
    readRastersCalls evs =
      [ {| Geotiff.window := None;
           Geotiff.width := Some 1024%float;
           Geotiff.height := Some 1024%float;
           Geotiff.resampleMethod := None;
           Geotiff.samples := [1];
           Geotiff.fillValue := (-999)%float;
           Geotiff.pool := Example.pool |} ].
Proof.
  apply (getTiledData_resolves_to_first_raster Example.tcg (Example.request 0 0 0)
           Example.world2 {| Geotiff.getImage := Fulfilled Example.image16 |}
           Example.image16
           [ {| elementType := Uint16; elements := [2000; 4000]%float |} ]).
  - right. split; reflexivity.
  - reflexivity.
  - vm_compute. reflexivity.
Defined.

(** ** Sequences of actions on the shared cache *)

Section Orders.

Variable A : Type.
Implicit Types (R : A -> A -> Prop) (l : list A).

Lemma sorted_snoc R (R' : A -> A -> Prop) l (u : A) :
  StronglySorted R l ->
  (forall a b, In a l -> R a b -> R' a b) ->
  (forall a, In a l -> R' a u) ->
  StronglySorted R' (l ++ [u]).
Proof.
  intros Hs. induction Hs as [|a l Hs IH Hall]; intros Himp Hnew; simpl.
  - constructor; constructor.
  - constructor.
    + apply IH.
      * intros x y Hx. apply Himp. right. exact Hx.
      * intros x Hx. apply Hnew. right. exact Hx.
    + apply Forall_app. split.
      * rewrite Forall_forall in *. intros x Hx. apply Himp; [left; reflexivity|].
        apply Hall. exact Hx.
      * constructor; [|constructor]. apply Hnew. left. reflexivity.
Qed.

Lemma sorted_filter R (f : A -> bool) l :
  StronglySorted R l -> StronglySorted R (filter f l).
Proof.
  intros Hs. induction Hs as [|a l Hs IH Hall]; simpl.
  - constructor.
  - destruct (f a); [|exact IH]. constructor; [exact IH|].
    rewrite Forall_forall in *. intros x Hx. apply filter_In in Hx. apply Hall. tauto.
Qed.

Lemma sorted_NoDup R l :
  (forall a, ~ R a a) -> StronglySorted R l -> NoDup l.
Proof.
  intros Hirr Hs. induction Hs as [|a l Hs IH Hall].
  - constructor.
  - constructor; [|exact IH]. intro Hin. rewrite Forall_forall in Hall.
    exact (Hirr a (Hall a Hin)).
Qed.

End Orders.

Section Recency.

Import Ol GeoTiffTiles.

Lemma last_occurrence (a : Url) (h : list Url) :
  In a h -> exists h1 h2, h = h1 ++ a :: h2 /\ ~ In a h2.
Proof.
  induction h as [|x t IH]; intro Hin.
  - contradiction.
  - destruct (in_dec Url_eq_dec a t) as [Ht|Ht].
    + destruct (IH Ht) as (h1 & h2 & Heq & Hn). exists (x :: h1), h2.
      rewrite Heq. split; [reflexivity | exact Hn].
    + destruct Hin as [Hx|Hx]; [|contradiction]. subst x.
      exists [], t. split; [reflexivity | exact Ht].
Qed.

Lemma usedAfterLast_irrefl (h : list Url) (a : Url) : ~ usedAfterLast h a a.
Proof. intros (h1 & h2 & _ & Hn & Hin). exact (Hn Hin). Qed.

Lemma usedAfterLast_snoc (h : list Url) (a b u : Url) :
  usedAfterLast h a b -> a <> u -> usedAfterLast (h ++ [u]) a b.
Proof.
  intros (h1 & h2 & Heq & Hn & Hin) Hne. exists h1, (h2 ++ [u]).
  rewrite Heq, <- app_assoc. repeat split.
  - intro H. apply in_app_or in H. destruct H as [H|[H|[]]]; [exact (Hn H)|congruence].
  - apply in_or_app. left. exact Hin.
Qed.

Lemma usedAfterLast_new (h : list Url) (a u : Url) :
  In a h -> a <> u -> usedAfterLast (h ++ [u]) a u.
Proof.
  intros Hin Hne. destruct (last_occurrence a h Hin) as (h1 & h2 & Heq & Hn).
  exists h1, (h2 ++ [u]). rewrite Heq, <- app_assoc. repeat split.
  - intro H. apply in_app_or in H. destruct H as [H|[H|[]]]; [exact (Hn H)|congruence].
  - apply in_or_app. right. left. reflexivity.
Qed.

(** The keys stay in the order of their last request when a URL becomes
    the most recently used key, whatever older keys are dropped. *)
Lemma recency_step (h : list Url) (old : list Url) (l : list Url) (u : Url) :
  StronglySorted (usedAfterLast h) l ->
  (forall a, In a l -> In a old /\ a <> u) ->
  Forall (fun k => In k h) old ->
  StronglySorted (usedAfterLast (h ++ [u])) (l ++ [u]) /\
  Forall (fun k => In k (h ++ [u])) (l ++ [u]).
Proof.
  intros Hs Hl Hold. rewrite Forall_forall in Hold. split.
  - apply (sorted_snoc _ (usedAfterLast h)); [exact Hs| |].
    + intros a b Ha Hab. apply usedAfterLast_snoc; [exact Hab|]. apply (Hl a Ha).
    + intros a Ha. destruct (Hl a Ha) as [Hin Hne].
      apply usedAfterLast_new; [apply Hold; exact Hin | exact Hne].
  - apply Forall_app. split.
    + rewrite Forall_forall. intros a Ha. apply in_or_app. left.
      apply Hold. apply (Hl a Ha).
    + constructor; [|constructor]. apply in_or_app. right. left. reflexivity.
Qed.

End Recency.

Section Liveness.

Import Ol GeoTiffTiles.

Lemma live_app (u : Url) (t evs : list Event) :
  live u (t ++ evs) = liveFrom (live u t) u evs.
Proof. unfold live, liveFrom. apply fold_left_app. Qed.

Lemma liveFrom_readEvents (b : bool) (u : Url) this p instance :
  liveFrom b u (readEvents this p instance) = b.
Proof.
  unfold readEvents. destruct (thenP instance _); reflexivity.
Qed.

(** Once the factory has been called on [u], [u] stays live until an
    eviction of [u] shows up. *)
Lemma liveFrom_true (u : Url) (t : list Event) :
  liveFrom true u t = true \/ In (CacheEvict u) t.
Proof.
  induction t as [|e t IH] using rev_ind.
  - left. reflexivity.
  - destruct IH as [IH|IH].
    + unfold liveFrom in *. rewrite fold_left_app, IH. simpl.
      destruct e as [u'|u'|o]; simpl.
      * left. destruct (Url_eq_dec u u'); reflexivity.
      * destruct (Url_eq_dec u u') as [->|Hne].
        -- right. apply in_or_app. right. left. reflexivity.
        -- left. reflexivity.
      * left. reflexivity.
    + right. apply in_or_app. left. exact IH.
Qed.

Lemma live_after_factory (u : Url) (t1 t2 : list Event) :
  live u (t1 ++ FactoryCall u :: t2) = true \/ In (CacheEvict u) t2.
Proof.
  rewrite live_app. unfold liveFrom. simpl.
  destruct (Url_eq_dec u u) as [_|Hne]; [|congruence].
  apply liveFrom_true.
Qed.

(** Splitting [t ++ [e]] around two calls of the factory. *)
Lemma two_calls_snoc (t : list Event) (e : Event) t1 (u : Url) t2 t3 :
  t ++ [e] = t1 ++ FactoryCall u :: t2 ++ FactoryCall u :: t3 ->
  (t3 = [] /\ e = FactoryCall u /\ t = t1 ++ FactoryCall u :: t2) \/
  (exists t3', t3 = t3' ++ [e] /\ t = t1 ++ FactoryCall u :: t2 ++ FactoryCall u :: t3').
Proof.
  intro H. destruct t3 as [|x t3] using rev_ind.
  - left.
    change (t1 ++ FactoryCall u :: t2 ++ [FactoryCall u])
      with (t1 ++ (FactoryCall u :: t2) ++ [FactoryCall u]) in H.
    rewrite app_assoc in H. apply app_inj_tail in H. destruct H as [H1 H2].
    repeat split; congruence.
  - right. clear IHt3. exists t3.
    assert (E : t1 ++ FactoryCall u :: t2 ++ FactoryCall u :: t3 ++ [x]
                = (t1 ++ FactoryCall u :: t2 ++ FactoryCall u :: t3) ++ [x])
      by (repeat (rewrite <- app_assoc; simpl); reflexivity).
    rewrite E in H. apply app_inj_tail in H. destruct H as [H1 H2].
    subst x. split; [reflexivity | exact H1].
Qed.

Lemma evictedBetween_snoc_other (t : list Event) (e : Event) :
  evictedBetween t -> (forall u, e <> FactoryCall u) -> evictedBetween (t ++ [e]).
Proof.
  intros Hg Hne t1 u t2 t3 Heq. apply two_calls_snoc in Heq.
  destruct Heq as [(_ & He & _)|(t3' & _ & Ht)].
  - exfalso. exact (Hne u He).
  - exact (Hg t1 u t2 t3' Ht).
Qed.

Lemma evictedBetween_snoc_factory (t : list Event) (u : Url) :
  evictedBetween t -> live u t = false -> evictedBetween (t ++ [FactoryCall u]).
Proof.
  intros Hg Hl t1 u' t2 t3 Heq. apply two_calls_snoc in Heq.
  destruct Heq as [(_ & He & Ht)|(t3' & _ & Ht)].
  - injection He as <-. destruct (live_after_factory u t1 t2) as [H|H].
    + rewrite <- Ht in H. congruence.
    + exact H.
  - exact (Hg t1 u' t2 t3' Ht).
Qed.

Lemma evictedBetween_readEvents (t : list Event) this p instance :
  evictedBetween t -> evictedBetween (t ++ readEvents this p instance).
Proof.
  intro Hg. unfold readEvents. destruct (thenP instance _).
  - rewrite app_nil_r. exact Hg.
  - apply evictedBetween_snoc_other; [exact Hg | discriminate].
  - rewrite app_nil_r. exact Hg.
Qed.

End Liveness.

Section Runs.

Import Ol GeoTiffTiles.

Lemma decode_world this (p : TiledDataParameters) (instance : Promise Geotiff.GeoTIFF) (w : World) :
  geotiffCache (snd (getTiledData_decode this p instance w)) = geotiffCache w /\
  trace (snd (getTiledData_decode this p instance w)) = trace w ++ readEvents this p instance.
Proof.
  unfold getTiledData_decode, readEvents.
  destruct (thenP instance (fun tiff => Geotiff.getImage tiff)) as [|img|r]; simpl.
  - rewrite app_nil_r. split; reflexivity.
  - unfold resolveAnyTile_. destruct (deferred w (anyTile_ this)); split; reflexivity.
  - rewrite app_nil_r. split; reflexivity.
Qed.

Lemma filter_present_length (k : Url) (l : list (Url * Promise Geotiff.GeoTIFF)) :
  In k (map fst l) ->
  S (List.length (filter (fun e => negb (LRUCache.hasKey Url_eq_dec k e)) l)) <= List.length l.
Proof.
  induction l as [|[a x] l IH]; simpl; intro Hin.
  - contradiction.
  - destruct (LRUCache.hasKey Url_eq_dec k (a, x)) eqn:E; simpl.
    + pose proof (filter_length_le (fun e => negb (LRUCache.hasKey Url_eq_dec k e)) l). lia.
    + apply hasKey_false in E. simpl in E. destruct Hin as [Hin|Hin]; [congruence|].
      specialize (IH Hin). lia.
Qed.

(** The three ways a request can go, seen from the keys and the trace. *)
Lemma request_cases (c : Call) (w : World) :
  1 <= LRUCache.highWaterMark (geotiffCache w) ->
  let url := callUrl c in
  let w' := step w (Request c) in
  let read := readEvents (fst c) (snd c) (fst (getTiledData_instance (fst c) url w)) in
  let keys := LRUCache.keys (geotiffCache w) in
  LRUCache.highWaterMark (geotiffCache w') = LRUCache.highWaterMark (geotiffCache w) /\
  ((In url keys /\
    trace w' = trace w ++ read /\
    LRUCache.keys (geotiffCache w')
      = filter (fun a => if Url_eq_dec url a then false else true) keys ++ [url] /\
    LRUCache.getCount (geotiffCache w') <= LRUCache.getCount (geotiffCache w))
   \/
   (~ In url keys /\
    LRUCache.getCount (geotiffCache w) < LRUCache.highWaterMark (geotiffCache w) /\
    trace w' = (trace w ++ [FactoryCall url]) ++ read /\
    LRUCache.entries (geotiffCache w')
      = LRUCache.entries (geotiffCache w) ++ [(url, factory_ (fst c) url)])
   \/
   (exists e0 rest,
      ~ In url keys /\
      LRUCache.highWaterMark (geotiffCache w) <= LRUCache.getCount (geotiffCache w) /\
      LRUCache.entries (geotiffCache w) = e0 :: rest /\
      trace w' = ((trace w ++ [FactoryCall url]) ++ [CacheEvict (fst e0)]) ++ read /\
      LRUCache.entries (geotiffCache w') = rest ++ [(url, factory_ (fst c) url)])).
Proof.
  intros Hcap url w' read keys. subst w' read keys. destruct c as [this p]. simpl.
  rewrite getTiledData_parts. fold url.
  destruct (instance_cases this url w Hcap) as (Hh & _ & Hcases).
  destruct (decode_world this p (fst (getTiledData_instance this url w))
              (snd (getTiledData_instance this url w))) as (Hc' & Ht').
  rewrite Hc', Ht'. split; [exact Hh|].
  destruct Hcases as [(v & Hc & Hv & Hi & Ht & He)
                     |[(Hc & Hi & Hlt & Ht & He)
                      |(e0 & rest & Hc & Hi & Hge & Hent & Ht & He)]].
  - left. apply containsKey_In in Hc. rewrite Ht. repeat split.
    + exact Hc.
    + unfold LRUCache.keys. rewrite He, map_app, filter_other_keys. reflexivity.
    + unfold LRUCache.getCount. rewrite He, length_app. simpl.
      pose proof (filter_present_length url _ Hc). lia.
  - right. left. apply containsKey_not_In in Hc. rewrite Ht. repeat split; assumption.
  - right. right. exists e0, rest. apply containsKey_not_In in Hc. rewrite Ht.
    repeat split; try assumption.
    rewrite <- (app_assoc (trace w) [FactoryCall url] [CacheEvict (fst e0)]). reflexivity.
Qed.

Lemma live_snoc (u : Url) (t : list Event) (e : Event) :
  live u (t ++ [e]) = liveAfter u (live u t) e.
Proof. rewrite live_app. reflexivity. Qed.

Lemma invariant_request (h : list Url) (w : World) (c : Call) :
  Invariant h w -> Invariant (h ++ [callUrl c]) (step w (Request c)).
Proof.
  intros (Hcap & Hcount & Hsort & Hin & Hlive & Hgood).
  assert (H1 : 1 <= LRUCache.highWaterMark (geotiffCache w)) by lia.
  pose proof (sorted_NoDup _ _ _ (usedAfterLast_irrefl h) Hsort) as Hnd.
  destruct (request_cases c w H1) as (Hh & Hcases).
  set (url := callUrl c) in *. set (w' := step w (Request c)) in *.
  set (read := readEvents (fst c) (snd c) (fst (getTiledData_instance (fst c) url w))) in *.
  unfold Invariant. rewrite Hh.
  destruct Hcases as [(Hk & Ht & Hkeys & Hle)
                     |[(Hk & Hlt & Ht & He)
                      |(e0 & rest & Hk & Hge & Hent & Ht & He)]].
  - (* the URL is a key: it becomes the most recently used one *)
    rewrite Hkeys, Ht.
    destruct (recency_step h (LRUCache.keys (geotiffCache w))
                (filter (fun a => if Url_eq_dec url a then false else true)
                        (LRUCache.keys (geotiffCache w))) url) as (Hs' & Hin').
    { apply sorted_filter. exact Hsort. }
    { intros a Ha. apply filter_In in Ha. destruct Ha as [Ha Hf]. split; [exact Ha|].
      destruct (Url_eq_dec url a); [discriminate | congruence]. }
    { exact Hin. }
    repeat split; try assumption; try lia.
    + intro Hu. unfold read. rewrite live_app, liveFrom_readEvents. apply Hlive.
      apply in_app_or in Hu. destruct Hu as [Hu|[Hu|[]]].
      * apply filter_In in Hu. tauto.
      * congruence.
    + unfold read. rewrite live_app, liveFrom_readEvents. intro Hu. apply Hlive in Hu.
      apply in_or_app. destruct (Url_eq_dec url u) as [->|Hne].
      * right. left. reflexivity.
      * left. apply filter_In. split; [exact Hu|].
        destruct (Url_eq_dec url u); [congruence | reflexivity].
    + apply evictedBetween_readEvents. exact Hgood.
  - (* a new key, and room for it *)
    assert (Hkeys : LRUCache.keys (geotiffCache w') = LRUCache.keys (geotiffCache w) ++ [url]).
    { unfold LRUCache.keys. rewrite He, map_app. reflexivity. }
    assert (Hdead : live url (trace w) = false).
    { destruct (live url (trace w)) eqn:E; [|reflexivity]. apply Hlive in E. contradiction. }
    rewrite Hkeys, Ht.
    destruct (recency_step h (LRUCache.keys (geotiffCache w))
                (LRUCache.keys (geotiffCache w)) url) as (Hs' & Hin').
    { exact Hsort. }
    { intros a Ha. split; [exact Ha | congruence]. }
    { exact Hin. }
    repeat split; try assumption.
    + unfold LRUCache.getCount in *. rewrite He, length_app. simpl. lia.
    + intro Hu. unfold read. rewrite live_app, liveFrom_readEvents, live_snoc. simpl.
      destruct (Url_eq_dec u url); [reflexivity|]. apply Hlive.
      apply in_app_or in Hu. destruct Hu as [Hu|[Hu|[]]]; [exact Hu | congruence].
    + unfold read. rewrite live_app, liveFrom_readEvents, live_snoc. simpl. intro Hu.
      apply in_or_app. destruct (Url_eq_dec u url) as [->|Hne].
      * right. left. reflexivity.
      * left. apply Hlive. exact Hu.
    + apply evictedBetween_readEvents. apply evictedBetween_snoc_factory; assumption.
  - (* a new key, and the least recently used one evicted *)
    assert (Hold : LRUCache.keys (geotiffCache w) = fst e0 :: map fst rest).
    { unfold LRUCache.keys. rewrite Hent. reflexivity. }
    assert (Hkeys : LRUCache.keys (geotiffCache w') = map fst rest ++ [url]).
    { unfold LRUCache.keys. rewrite He, map_app. reflexivity. }
    assert (Hdead : live url (trace w) = false).
    { destruct (live url (trace w)) eqn:E; [|reflexivity]. apply Hlive in E. contradiction. }
    rewrite Hkeys, Ht. rewrite Hold in *.
    apply StronglySorted_inv in Hsort. destruct Hsort as [Hsort _].
    inversion Hnd as [|k0 rk Hk0 Hnd' Heq]; subst k0 rk.
    destruct (recency_step h (fst e0 :: map fst rest) (map fst rest) url) as (Hs' & Hin').
    { exact Hsort. }
    { intros a Ha. split; [right; exact Ha|]. intro Hau. apply Hk. right. congruence. }
    { exact Hin. }
    repeat split; try assumption.
    + unfold LRUCache.getCount in *. rewrite He, length_app. rewrite Hent in Hcount.
      simpl in *. lia.
    + intro Hu. unfold read. rewrite live_app, liveFrom_readEvents, !live_snoc. simpl.
      apply in_app_or in Hu.
      destruct (Url_eq_dec u (fst e0)) as [->|Hne0].
      * exfalso. destruct Hu as [Hu|[Hu|[]]]; [exact (Hk0 Hu)|]. apply Hk. left. congruence.
      * destruct (Url_eq_dec u url); [reflexivity|]. apply Hlive.
        destruct Hu as [Hu|[Hu|[]]]; [right; exact Hu | congruence].
    + unfold read. rewrite live_app, liveFrom_readEvents, !live_snoc. simpl. intro Hu.
      apply in_or_app.
      destruct (Url_eq_dec u (fst e0)) as [->|Hne0]; [discriminate|].
      destruct (Url_eq_dec u url) as [->|Hne].
      * right. left. reflexivity.
      * left. apply Hlive in Hu. destruct Hu as [Hu|Hu]; [congruence | exact Hu].
    + apply evictedBetween_readEvents. apply evictedBetween_snoc_other; [|discriminate].
      apply evictedBetween_snoc_factory; assumption.
Qed.

Lemma invariant_construct (h : list Url) (w : World) (o : Options) :
  Invariant h w -> Invariant h (step w (Construct o)).
Proof. intro H. exact H. Qed.

Lemma run_snoc (acts : list Action) (a : Action) (w : World) :
  run (acts ++ [a]) w = step (run acts w) a.
Proof. unfold run. apply fold_left_app. Qed.

Lemma requests_snoc (acts : list Action) (a : Action) :
  requests (acts ++ [a]) = requests acts ++ requests [a].
Proof. unfold requests. apply flat_map_app. Qed.

Lemma invariant_initial : Invariant [] initialWorld.
Proof.
  unfold Invariant. simpl. repeat split; try (constructor; fail).
  - unfold LRUCache.getCount. simpl. lia.
  - intros [].
  - discriminate.
  - intros t1 u t2 t3 H. destruct t1; discriminate.
Qed.

Lemma invariant_run (acts : list Action) :
  Invariant (requests acts) (run acts initialWorld).
Proof.
  induction acts as [|a acts IH] using rev_ind.
  - exact invariant_initial.
  - rewrite run_snoc, requests_snoc. destruct a as [o|c]; simpl.
    + rewrite app_nil_r. exact (invariant_construct _ _ o IH).
    + apply invariant_request. exact IH.
Qed.

Lemma evictions_readEvents this (p : TiledDataParameters) (instance : Promise Geotiff.GeoTIFF) :
  evictions (readEvents this p instance) = [] /\ factoryCalls (readEvents this p instance) = [].
Proof. unfold readEvents. destruct (thenP instance _); split; reflexivity. Qed.

(** C2. After any sequence of actions the shared cache has capacity 16 and
    holds at most 16 entries. A request whose URL is not a key while the
    cache is full inserts the new entry and evicts exactly one entry, the
    oldest in the cache, which is the least recently used one: every key
    that stays has been requested after the last request of the evicted
    key. A request that does not make the cache exceed its capacity evicts
    nothing. *)
Theorem cache_holds_16_and_evicts_least_recently_used (acts : list Action) (c : Call) :
  let w := run acts initialWorld in
  let w' := step w (Request c) in
  let url := callUrl c in
  LRUCache.highWaterMark (geotiffCache w) = 16 /\
  LRUCache.getCount (geotiffCache w) <= 16 /\
  (LRUCache.containsKey Url_eq_dec url (geotiffCache w) = false /\
   LRUCache.getCount (geotiffCache w) = 16 ->
   exists k0 v0 rest evs,
     LRUCache.entries (geotiffCache w) = (k0, v0) :: rest /\
     LRUCache.entries (geotiffCache w') = rest ++ [(url, factory_ (fst c) url)] /\
     trace w' = trace w ++ evs /\ evictions evs = [k0] /\
     forall k, In k (map fst rest) -> usedAfterLast (requests acts) k0 k) /\
  (LRUCache.containsKey Url_eq_dec url (geotiffCache w) = true \/
   LRUCache.getCount (geotiffCache w) < 16 ->
   exists evs, trace w' = trace w ++ evs /\ evictions evs = []).
Proof.
  intros w w' url. subst w' url.
  destruct (invariant_run acts) as (Hcap & Hcount & Hsort & _ & _ & _). fold w in Hcap, Hcount, Hsort.
  assert (H1 : 1 <= LRUCache.highWaterMark (geotiffCache w)) by lia.
  destruct (request_cases c w H1) as (_ & Hcases).
  destruct (evictions_readEvents (fst c) (snd c)
              (fst (getTiledData_instance (fst c) (callUrl c) w))) as (Hev & _).
  split; [exact Hcap|]. split; [exact Hcount|]. split.
  - intros (Hc & Hfull). apply containsKey_not_In in Hc.
    destruct Hcases as [(Hk & _)|[(_ & Hlt & _)|(e0 & rest & _ & _ & Hent & Ht & He)]].
    + contradiction.
    + lia.
    + destruct e0 as [k0 v0]. exists k0, v0, rest.
      exists ([FactoryCall (callUrl c); CacheEvict k0]
              ++ readEvents (fst c) (snd c) (fst (getTiledData_instance (fst c) (callUrl c) w))).
      repeat split.
      * exact Hent.
      * exact He.
      * rewrite Ht. simpl. rewrite <- !app_assoc. reflexivity.
      * rewrite evictions_app, Hev. reflexivity.
      * unfold LRUCache.keys in Hsort. rewrite Hent in Hsort. simpl in Hsort.
        apply StronglySorted_inv in Hsort. destruct Hsort as [_ Hall].
        rewrite Forall_forall in Hall. exact Hall.
  - intros Hor.
    destruct Hcases as [(Hk & Ht & _)|[(_ & _ & Ht & _)|(e0 & rest & Hk & Hge & _)]].
    + exists (readEvents (fst c) (snd c) (fst (getTiledData_instance (fst c) (callUrl c) w))).
      split; assumption.
    + exists ([FactoryCall (callUrl c)]
              ++ readEvents (fst c) (snd c) (fst (getTiledData_instance (fst c) (callUrl c) w))).
      split.
      * rewrite Ht, <- app_assoc. reflexivity.
      * rewrite evictions_app, Hev. reflexivity.
    + exfalso. destruct Hor as [Hc|Hlt].
      * apply containsKey_In in Hc. contradiction.
      * lia.
Qed.

(** C7. After any sequence of actions, by any number of instances: a
    request for a URL that is a key of the shared cache does not call the
    factory; between two calls of the factory on the same URL the cache has
    evicted that URL; and the keys of the cache are the URLs whose last
    factory call has not been followed by their eviction. *)
Theorem factory_called_again_only_after_eviction (acts : list Action) :
  let w := run acts initialWorld in
  (forall c, LRUCache.containsKey Url_eq_dec (callUrl c) (geotiffCache w) = true ->
             exists evs, trace (step w (Request c)) = trace w ++ evs /\ factoryCalls evs = []) /\
  (forall t1 u t2 t3,
      trace w = t1 ++ FactoryCall u :: t2 ++ FactoryCall u :: t3 -> In (CacheEvict u) t2) /\
  (forall u, LRUCache.containsKey Url_eq_dec u (geotiffCache w) = true <-> live u (trace w) = true).
Proof.
  intros w.
  destruct (invariant_run acts) as (Hcap & _ & _ & _ & Hlive & Hgood).
  fold w in Hcap, Hlive, Hgood. repeat split.
  - intros c Hc.
    assert (H1 : 1 <= LRUCache.highWaterMark (geotiffCache w)) by lia.
    destruct (request_cases c w H1) as (_ & Hcases).
    apply containsKey_In in Hc.
    destruct Hcases as [(_ & Ht & _)|[(Hk & _)|(e0 & rest & Hk & _)]]; try contradiction.
    exists (readEvents (fst c) (snd c) (fst (getTiledData_instance (fst c) (callUrl c) w))).
    split; [exact Ht|]. apply evictions_readEvents.
  - exact Hgood.
  - intro H. apply containsKey_In in H. apply Hlive. exact H.
  - intro H. apply Hlive in H. apply containsKey_In. exact H.
Qed.

End Runs.

(** ** The promise [anyTile_] *)

Section AnyTile.

Import Ol GeoTiffTiles.

Lemma instance_deferred this (url : Url) (w : World) :
  deferred (snd (getTiledData_instance this url w)) = deferred w /\
  nextRef (snd (getTiledData_instance this url w)) = nextRef w.
Proof.
  unfold getTiledData_instance.
  destruct (LRUCache.containsKey Url_eq_dec url (geotiffCache w)).
  - destruct (LRUCache.get _ _ _) as [[v|] c]; split; reflexivity.
  - simpl. destruct (LRUCache.canExpireCache _).
    + destruct (LRUCache.pop _) as [[[k v]|] c2]; split; reflexivity.
    + split; reflexivity.
Qed.

(** The chain of lines 67-83 changes a promise only by resolving the
    [anyTile_] of its own instance, with the image it has obtained. *)
Lemma decode_deferred this (p : TiledDataParameters) (instance : Promise Geotiff.GeoTIFF)
    (w : World) (r : nat) :
  nextRef (snd (getTiledData_decode this p instance w)) = nextRef w /\
  (deferred (snd (getTiledData_decode this p instance w)) r = deferred w r \/
   (r = anyTile_ this /\
    exists tiff img, instance = Fulfilled tiff /\ Geotiff.getImage tiff = Fulfilled img)).
Proof.
  unfold getTiledData_decode.
  destruct instance as [|tiff|e]; simpl; try (split; [reflexivity | left; reflexivity]).
  destruct (Geotiff.getImage tiff) as [|img|e] eqn:Himg; simpl;
    try (split; [reflexivity | left; reflexivity]).
  unfold resolveAnyTile_. destruct (deferred w (anyTile_ this)) eqn:Hd; simpl;
    try (split; [reflexivity | left; reflexivity]).
  split; [reflexivity|]. destruct (Nat.eqb_spec r (anyTile_ this)) as [->|Hne].
  - right. split; [reflexivity|]. exists tiff, img. split; [reflexivity | exact Himg].
  - left. reflexivity.
Qed.

Lemma request_deferred (c : Call) (w : World) (r : nat) :
  nextRef (step w (Request c)) = nextRef w /\
  (deferred (step w (Request c)) r = deferred w r \/
   (anyTile_ (fst c) = r /\
    exists tiff img,
      fst (getTiledData_instance (fst c) (callUrl c) w) = Fulfilled tiff /\
      Geotiff.getImage tiff = Fulfilled img)).
Proof.
  destruct c as [this p]. simpl. rewrite getTiledData_parts.
  destruct (instance_deferred this (callUrl (this, p)) w) as (Hd & Hn).
  destruct (decode_deferred this p (fst (getTiledData_instance this (callUrl (this, p)) w))
              (snd (getTiledData_instance this (callUrl (this, p)) w)) r) as (Hn' & Hd').
  rewrite Hn', Hn, Hd in *. split; [reflexivity|].
  destruct Hd' as [Hd'|(Hr & Hload)]; [left; exact Hd' | right; split; [congruence | exact Hload]].
Qed.

(** A promise that is pending stays pending until a request made on the
    instance that owns it obtains its image. *)
Lemma pending_until_image (acts : list Action) :
  forall (w : World) (r : nat),
    r < nextRef w ->
    deferred w r = Pending ->
    settled (deferred (run acts w) r) = true ->
    exists pre c post tiff img,
      acts = pre ++ Request c :: post /\
      anyTile_ (fst c) = r /\
      fst (getTiledData_instance (fst c) (callUrl c) (run pre w)) = Fulfilled tiff /\
      Geotiff.getImage tiff = Fulfilled img.
Proof.
  induction acts as [|a acts IH]; intros w r Hr Hp Hs.
  - simpl in Hs. rewrite Hp in Hs. discriminate.
  - change (run (a :: acts) w) with (run acts (step w a)) in Hs.
    assert (Hnext : forall pre c post tiff img,
              acts = pre ++ Request c :: post /\
              anyTile_ (fst c) = r /\
              fst (getTiledData_instance (fst c) (callUrl c) (run pre (step w a)))
                = Fulfilled tiff /\
              Geotiff.getImage tiff = Fulfilled img ->
              exists pre c post tiff img,
                a :: acts = pre ++ Request c :: post /\
                anyTile_ (fst c) = r /\
                fst (getTiledData_instance (fst c) (callUrl c) (run pre w)) = Fulfilled tiff /\
                Geotiff.getImage tiff = Fulfilled img).
    { intros pre c post tiff img (He & Ha & Hi & Hg).
      exists (a :: pre), c, post, tiff, img. rewrite He. repeat split; assumption. }
    destruct a as [o|c].
    + assert (Hd : deferred (step w (Construct o)) r = Pending).
      { simpl. destruct (Nat.eqb_spec r (nextRef w)); [reflexivity | exact Hp]. }
      assert (Hr' : r < nextRef (step w (Construct o))) by (simpl; lia).
      destruct (IH _ r Hr' Hd Hs) as (pre & c & post & tiff & img & H).
      exact (Hnext pre c post tiff img H).
    + destruct (request_deferred c w r) as (Hn & [Hd|(Ha & tiff & img & Hi & Hg)]).
      * rewrite Hp in Hd. assert (Hr' : r < nextRef (step w (Request c))) by lia.
        destruct (IH _ r Hr' Hd Hs) as (pre & c' & post & tiff & img & H).
        exact (Hnext pre c' post tiff img H).
      * exists [], c, acts, tiff, img. repeat split; assumption.
Qed.

(** C10. The promise of [getFetchFunctionDef] of an instance is pending
    when the instance has just been created, and after any sequence of
    actions it is settled only if the sequence contains a request made on
    that instance ([getTiledData]) whose GeoTIFF promise gave a GeoTIFF and
    whose image was obtained. *)
Theorem getFetchFunctionDef_waits_for_a_tile (o : Options) (w0 : World)
    (acts : list Action) (uniformName : string) :
  let this := fst (constructor o w0) in
  let w := snd (constructor o w0) in
  getFetchFunctionDef this uniformName w = Pending /\
  (settled (getFetchFunctionDef this uniformName (run acts w)) = true ->
   exists pre c post tiff img,
     acts = pre ++ Request c :: post /\
     anyTile_ (fst c) = anyTile_ this /\
     fst (getTiledData_instance (fst c) (callUrl c) (run pre w)) = Fulfilled tiff /\
     Geotiff.getImage tiff = Fulfilled img).
Proof.
  intros this w. subst this w. simpl.
  assert (Hp : deferred (snd (constructor o w0)) (nextRef w0) = Pending).
  { simpl. rewrite Nat.eqb_refl. reflexivity. }
  split.
  - unfold getFetchFunctionDef. simpl. rewrite Nat.eqb_refl. reflexivity.
  - intro Hs. apply (pending_until_image acts (snd (constructor o w0)) (nextRef w0)).
    + simpl. lia.
    + exact Hp.
    + unfold getFetchFunctionDef in Hs. simpl in Hs.
      destruct (deferred (run acts _) (nextRef w0)); [discriminate | reflexivity | reflexivity].
Qed.

End AnyTile.

Lemma cache_holds_16_and_evicts_least_recently_used_witness :
  let acts := Example.setup ++ Example.sixteen in
  let c := Example.seventeenth in
  let w := GeoTiffTiles.run acts GeoTiffTiles.initialWorld in
  let w' := GeoTiffTiles.step w (GeoTiffTiles.Request c) in
  let url := GeoTiffTiles.callUrl c in
  exists k0 v0 rest evs,
    LRUCache.entries (GeoTiffTiles.geotiffCache w) = (k0, v0) :: rest /\
    LRUCache.entries (GeoTiffTiles.geotiffCache w')
      = rest ++ [(url, GeoTiffTiles.factory_ (fst c) url)] /\
    GeoTiffTiles.trace w' = GeoTiffTiles.trace w ++ evs /\ evictions evs = [k0] /\
    forall k, In k (map fst rest) ->
              GeoTiffTiles.usedAfterLast (GeoTiffTiles.requests acts) k0 k.
Proof.
  apply (proj1 (proj2 (proj2
           (cache_holds_16_and_evicts_least_recently_used
              (Example.setup ++ Example.sixteen) Example.seventeenth)))).
  split; vm_compute; reflexivity.
Defined.

Lemma factory_called_again_only_after_eviction_witness :
  let again := (Example.tcr, Example.request 4 0 0) in
  let acts := Example.setup ++ Example.sixteen
              ++ [GeoTiffTiles.Request Example.seventeenth; GeoTiffTiles.Request again] in
  let t := GeoTiffTiles.trace (GeoTiffTiles.run acts GeoTiffTiles.initialWorld) in
  In (CacheEvict (GeoTiffTiles.callUrl again)) (firstn 34 (skipn 1 t)).
Proof.
  apply (proj1 (proj2
           (factory_called_again_only_after_eviction
              (Example.setup ++ Example.sixteen
               ++ [GeoTiffTiles.Request Example.seventeenth;
                   GeoTiffTiles.Request (Example.tcr, Example.request 4 0 0)])))
           []
           (GeoTiffTiles.callUrl (Example.tcr, Example.request 4 0 0))
           (firstn 34 (skipn 1
              (GeoTiffTiles.trace
                 (GeoTiffTiles.run
                    (Example.setup ++ Example.sixteen
                     ++ [GeoTiffTiles.Request Example.seventeenth;
                         GeoTiffTiles.Request (Example.tcr, Example.request 4 0 0)])
                    GeoTiffTiles.initialWorld))))
           (skipn 36
              (GeoTiffTiles.trace
                 (GeoTiffTiles.run
                    (Example.setup ++ Example.sixteen
                     ++ [GeoTiffTiles.Request Example.seventeenth;
                         GeoTiffTiles.Request (Example.tcr, Example.request 4 0 0)])
                    GeoTiffTiles.initialWorld)))).
  vm_compute. reflexivity.
Defined.

Lemma getFetchFunctionDef_waits_for_a_tile_witness :
  let o := Example.channel "getTCG" 1 in
  let w0 := Example.world1 in
  let this := fst (GeoTiffTiles.constructor o w0) in
  let w := snd (GeoTiffTiles.constructor o w0) in
  let acts := [GeoTiffTiles.Request (Example.tcg, Example.request 0 0 0)] in
  exists pre c post tiff img,
    acts = pre ++ GeoTiffTiles.Request c :: post /\
    GeoTiffTiles.anyTile_ (fst c) = GeoTiffTiles.anyTile_ this /\
    fst (GeoTiffTiles.getTiledData_instance (fst c) (GeoTiffTiles.callUrl c)
           (GeoTiffTiles.run pre w)) = Fulfilled tiff /\
    Geotiff.getImage tiff = Fulfilled img.
Proof.
  apply (proj2 (getFetchFunctionDef_waits_for_a_tile
                  (Example.channel "getTCG" 1) Example.world1
                  [GeoTiffTiles.Request (Example.tcg, Example.request 0 0 0)] "uTex")).
  vm_compute. reflexivity.
Defined.

(** ** Sample formats and the fetch function *)

Lemma strictEq_spec (v : option Z) (n : Z) : reflect (v = Some n) (strictEq v n).
Proof.
  destruct v as [z|]; simpl.
  - destruct (Z.eqb_spec z n); constructor; congruence.
  - constructor. discriminate.
Qed.

Lemma append_inj_l (s a b : string) : (s ++ a)%string = (s ++ b)%string -> a = b.
Proof.
  induction s as [|ch s IH]; simpl; intro H.
  - exact H.
  - injection H as H. exact (IH H).
Qed.

Section SampleFormats.

Import Ol.

Lemma samplePair_tags (img : Geotiff.GeoTIFFImage) (s : nat) (bits format : option Z) :
  Geotiff.samplePair img s = Some (bits, format) ->
  exists b f,
    Geotiff.BitsPerSample (Geotiff.getFileDirectory img) = Some b /\
    Geotiff.SampleFormat (Geotiff.getFileDirectory img) = Some f /\
    nth_error b s = bits /\ nth_error f s = format.
Proof.
  unfold Geotiff.samplePair.
  destruct (Geotiff.BitsPerSample _) as [b|]; [|discriminate].
  destruct (Geotiff.SampleFormat _) as [f|]; [|discriminate].
  intro H. injection H as H1 H2. exists b, f. repeat split; assumption.
Qed.

(** What the callback of the first class answers, by the pair. *)
Lemma tiles_callback_by_pair (this : GeoTiffTiles.GlTiledTextureGeoTiffTiles) (u : string)
    (img : Geotiff.GeoTIFFImage) (bits format : option Z) :
  Geotiff.samplePair img (GeoTiffTiles.sample_ this) = Some (bits, format) ->
  GeoTiffTiles.getFetchFunctionDef_callback this u img =
  let done body := Fulfilled (fetchFunction (GeoTiffTiles.fetchFuncName_ this) u body) in
  if strictEq bits 8 && (strictEq format 1 || strictEq format 2)
  then done "return texel.x * 256.;"
  else if strictEq bits 16 && (strictEq format 1 || strictEq format 2)
  then done "return texel.x * 256. + texel.a * 65536.0;"
  else if strictEq format 1 then Rejected (Str (notImplemented bits "uint"))
  else if strictEq format 2 then Rejected (Str (notImplemented bits "int"))
  else Rejected (Str (notImplemented bits "unknown uint/int/float")).
Proof.
  intro Hp. destruct (samplePair_tags _ _ _ _ Hp) as (b & f & Hb & Hf & <- & <-).
  unfold GeoTiffTiles.getFetchFunctionDef_callback. rewrite Hb, Hf.
  split_tests strictEq_spec; reflexivity.
Qed.

(** The callback of the second class is the callback of the first. *)
Lemma callbacks_agree (this : GeoTiffTiles.GlTiledTextureGeoTiffTiles)
    (that : GeoTiff.GlTiledTextureGeoTiff) (u : string) (img : Geotiff.GeoTIFFImage) :
  GeoTiff.fetchFuncName_ that = GeoTiffTiles.fetchFuncName_ this ->
  GeoTiff.sample_ that = GeoTiffTiles.sample_ this ->
  GeoTiff.getFetchFunctionDef_callback that u img
  = GeoTiffTiles.getFetchFunctionDef_callback this u img.
Proof.
  intros Hn Hs. unfold GeoTiff.getFetchFunctionDef_callback,
    GeoTiffTiles.getFetchFunctionDef_callback. rewrite Hn, Hs. reflexivity.
Qed.

Lemma constructor_outcome (o : GeoTiff.Options) :
  GeoTiff.constructor o =
  GeoTiff.withTiff
    (fst (then_ (GeoTiff.image o) GeoTiff.loadImage_ (GeoTiff.constructor_fields o)))
    (snd (then_ (GeoTiff.image o) GeoTiff.loadImage_ (GeoTiff.constructor_fields o))).
Proof.
  unfold GeoTiff.constructor, GeoTiff.image.
  destruct (GeoTiff.tiff o) as [g|[|g|e]]; simpl.
  - destruct (then_ (Geotiff.getImage g) GeoTiff.loadImage_ _). reflexivity.
  - reflexivity.
  - destruct (then_ (Geotiff.getImage g) GeoTiff.loadImage_ _). reflexivity.
  - reflexivity.
Qed.

(** What [loadImage_] does with an image that has both tags, enough
    samples and a size that can be allocated. *)
Lemma loadImage_by_pair (img : Geotiff.GeoTIFFImage) (this : GeoTiff.GlTiledTextureGeoTiff)
    (bits format : option Z) :
  GeoTiff.sample_ this < Geotiff.getSamplesPerPixel img ->
  (Geotiff.getWidth img * Geotiff.getHeight img <= maxIndex)%N ->
  Geotiff.samplePair img (GeoTiff.sample_ this) = Some (bits, format) ->
  GeoTiff.loadImage_ img this =
  let this1 := GeoTiff.loadImage_dimensions img this in
  let empty ty :=
    (Fulfilled img,
     GeoTiff.withEmptyData
       (GeoTiff.filled ty (Geotiff.getWidth img * Geotiff.getHeight img) (GeoTiff.fillValue_ this))
       this1) in
  if strictEq bits 8 && strictEq format 1 then empty Uint8
  else if strictEq bits 16 && strictEq format 1 then empty Uint16
  else if strictEq bits 16 && strictEq format 2 then empty Int16
  else (Rejected (Str GeoTiff.noEmptyTile), this1).
Proof.
  intros Hs Hn Hp. destruct (samplePair_tags _ _ _ _ Hp) as (b & f & Hb & Hf & <- & <-).
  unfold GeoTiff.loadImage_. simpl.
  destruct (Nat.leb_spec (Geotiff.getSamplesPerPixel img) (GeoTiff.sample_ this)); [lia|].
  rewrite Hb, Hf. apply N.leb_le in Hn. rewrite Hn. reflexivity.
Qed.

(** What the callback of the second class answers, by the pair. *)
Lemma single_callback_by_pair (this : GeoTiff.GlTiledTextureGeoTiff) (u : string)
    (img : Geotiff.GeoTIFFImage) (bits format : option Z) :
  Geotiff.samplePair img (GeoTiff.sample_ this) = Some (bits, format) ->
  GeoTiff.getFetchFunctionDef_callback this u img =
  let done body := Fulfilled (fetchFunction (GeoTiff.fetchFuncName_ this) u body) in
  if strictEq bits 8 && (strictEq format 1 || strictEq format 2)
  then done "return texel.x * 256.;"
  else if strictEq bits 16 && (strictEq format 1 || strictEq format 2)
  then done "return texel.x * 256. + texel.a * 65536.0;"
  else if strictEq format 1 then Rejected (Str (notImplemented bits "uint"))
  else if strictEq format 2 then Rejected (Str (notImplemented bits "int"))
  else Rejected (Str (notImplemented bits "unknown uint/int/float")).
Proof.
  intro Hp. destruct (samplePair_tags _ _ _ _ Hp) as (b & f & Hb & Hf & <- & <-).
  unfold GeoTiff.getFetchFunctionDef_callback. rewrite Hb, Hf.
  split_tests strictEq_spec; reflexivity.
Qed.

(** What [getFetchFunctionDef] of the second class answers, by the pair,
    for an instance created over an image. *)
Lemma single_getFetchFunctionDef_by_pair (o : GeoTiff.Options) (u : string)
    (img : Geotiff.GeoTIFFImage) (bits format : option Z) :
  GeoTiff.image o = Fulfilled img ->
  GeoTiff.sample o < Geotiff.getSamplesPerPixel img ->
  (Geotiff.getWidth img * Geotiff.getHeight img <= maxIndex)%N ->
  Geotiff.samplePair img (GeoTiff.sample o) = Some (bits, format) ->
  GeoTiff.getFetchFunctionDef (GeoTiff.constructor o) u =
  let done body := Fulfilled (fetchFunction (GeoTiff.fetchFuncName o) u body) in
  if strictEq bits 8 && strictEq format 1
  then done "return texel.x * 256.;"
  else if strictEq bits 16 && (strictEq format 1 || strictEq format 2)
  then done "return texel.x * 256. + texel.a * 65536.0;"
  else Rejected (Str GeoTiff.noEmptyTile).
Proof.
  intros Himg Hs Hn Hp. rewrite constructor_outcome, Himg. simpl then_.
  rewrite (loadImage_by_pair img (GeoTiff.constructor_fields o) bits format Hs Hn Hp).
  unfold GeoTiff.getFetchFunctionDef.
  destruct (strictEq_spec bits 8) as [Hb8|Hb8];
    destruct (strictEq_spec bits 16) as [Hb16|Hb16];
    destruct (strictEq_spec format 1) as [Hf1|Hf1];
    destruct (strictEq_spec format 2) as [Hf2|Hf2];
    simpl; try reflexivity; try congruence;
    rewrite (single_callback_by_pair _ u img bits format) by exact Hp; simpl;
    split_tests strictEq_spec; try reflexivity; congruence.
Qed.

End SampleFormats.

Section FetchFunction.

Import Ol.

(** C3, as amended. [GlTiledTextureGeoTiffTiles.getFetchFunctionDef], once
    [anyTile_] has an image whose file carries both tags, maps the pair of
    the selected sample to one of two bodies: [return texel.x * 256.;] for
    (8, uint) and (8, int), [return texel.x * 256. + texel.a * 65536.0;] for
    (16, uint) and (16, int), and for every other pair its promise rejects
    with a "not yet implemented" message. [GlTiledTextureGeoTiff] applies
    the mapping only to the images that [loadImage_] accepts: over an image
    with enough samples it answers the first body for (8, uint), the second
    for (16, uint) and (16, int), and for every other pair, (8, int)
    included, its promise rejects with the message of [loadImage_]. *)
Theorem getFetchFunctionDef_maps_pair_to_body :
  (forall (this : GeoTiffTiles.GlTiledTextureGeoTiffTiles) (u : string)
          (w : GeoTiffTiles.World) (img : Geotiff.GeoTIFFImage) (bits format : option Z),
      GeoTiffTiles.deferred w (GeoTiffTiles.anyTile_ this) = Fulfilled img ->
      Geotiff.samplePair img (GeoTiffTiles.sample_ this) = Some (bits, format) ->
      let r := GeoTiffTiles.getFetchFunctionDef this u w in
      let name := GeoTiffTiles.fetchFuncName_ this in
      (bits = Some 8%Z /\ (format = Some 1%Z \/ format = Some 2%Z) ->
       r = Fulfilled (fetchFunction name u "return texel.x * 256.;")) /\
      (bits = Some 16%Z /\ (format = Some 1%Z \/ format = Some 2%Z) ->
       r = Fulfilled (fetchFunction name u "return texel.x * 256. + texel.a * 65536.0;")) /\
      (~ ((bits = Some 8%Z \/ bits = Some 16%Z) /\ (format = Some 1%Z \/ format = Some 2%Z)) ->
       exists kind,
         r = Rejected (Str ("GeoTIFF pixel format not yet implemented ("
                            ++ show bits ++ " bits, " ++ kind ++ ")")%string)))
  /\
  (forall (o : GeoTiff.Options) (u : string) (img : Geotiff.GeoTIFFImage)
          (bits format : option Z),
      GeoTiff.image o = Fulfilled img ->
      GeoTiff.sample o < Geotiff.getSamplesPerPixel img ->
      (Geotiff.getWidth img * Geotiff.getHeight img <= maxIndex)%N ->
      Geotiff.samplePair img (GeoTiff.sample o) = Some (bits, format) ->
      let r := GeoTiff.getFetchFunctionDef (GeoTiff.constructor o) u in
      let name := GeoTiff.fetchFuncName o in
      (bits = Some 8%Z /\ format = Some 1%Z ->
       r = Fulfilled (fetchFunction name u "return texel.x * 256.;")) /\
      (bits = Some 16%Z /\ (format = Some 1%Z \/ format = Some 2%Z) ->
       r = Fulfilled (fetchFunction name u "return texel.x * 256. + texel.a * 65536.0;")) /\
      (~ ((bits = Some 8%Z /\ format = Some 1%Z) \/
          (bits = Some 16%Z /\ (format = Some 1%Z \/ format = Some 2%Z))) ->
       r = Rejected
             (Str "FIXME: could not create empty tile data for GeoTIFF sample format, or unsupported (32-bit) format"))).
Proof.
  split.
  - intros this u w img bits format Hd Hp r name. subst r name.
    unfold GeoTiffTiles.getFetchFunctionDef. rewrite Hd. simpl thenP.
    rewrite (tiles_callback_by_pair this u img bits format Hp).
    split_tests strictEq_spec; repeat split; intros; try reflexivity;
      try (exfalso; intuition congruence);
      try (eexists; unfold notImplemented; reflexivity).
  - intros o u img bits format Himg Hs Hn Hp r name. subst r name.
    rewrite (single_getFetchFunctionDef_by_pair o u img bits format Himg Hs Hn Hp).
    split_tests strictEq_spec; repeat split; intros; try reflexivity;
      exfalso; intuition congruence.
Qed.

(** C3 as stated fails on [GlTiledTextureGeoTiff]: over an image whose
    selected sample is (8, int), the promise of [getFetchFunctionDef] is
    rejected with the message of [loadImage_]; the body is never produced. *)
Lemma getFetchFunctionDef_8_int_counterexample :
  let o := Example.single (Example.imageOf 8 2) in
  let r := GeoTiff.getFetchFunctionDef (GeoTiff.constructor o) "uTex" in
  Geotiff.samplePair (Example.imageOf 8 2) (GeoTiff.sample o) = Some (Some 8%Z, Some 2%Z) /\
  r = Rejected (Str GeoTiff.noEmptyTile) /\
  r <> Fulfilled (fetchFunction "getData" "uTex" "return texel.x * 256.;").
Proof.
  repeat split.
  vm_compute. discriminate.
Qed.

Lemma getFetchFunctionDef_maps_pair_to_body_witness :
  let w := GeoTiffTiles.run [GeoTiffTiles.Request (Example.tcg, Example.request 0 0 0)]
             Example.world2 in
  GeoTiffTiles.getFetchFunctionDef Example.tcg "uTex" w
  = Fulfilled (fetchFunction "getTCG" "uTex" "return texel.x * 256. + texel.a * 65536.0;").
Proof.
  apply (proj1 (proj2
           (proj1 getFetchFunctionDef_maps_pair_to_body Example.tcg "uTex"
              (GeoTiffTiles.run [GeoTiffTiles.Request (Example.tcg, Example.request 0 0 0)]
                 Example.world2)
              Example.image16 (Some 16%Z) (Some 1%Z) eq_refl eq_refl))).
  split; [reflexivity | left; reflexivity].
Defined.

Lemma chars_of_append (a b : string) :
  list_ascii_of_string (a ++ b) = list_ascii_of_string a ++ list_ascii_of_string b.
Proof.
  induction a as [|ch a IH]; simpl.
  - reflexivity.
  - rewrite IH. reflexivity.
Qed.

(** The message of kind "float" is none of the messages the callbacks
    produce, whatever the bit depths written in them. *)
Lemma not_the_float_message (bits bits' : option Z) (kind : string) :
  kind = "uint" \/ kind = "int" \/ kind = "unknown uint/int/float" ->
  notImplemented bits kind <> notImplemented bits' "float".
Proof.
  intros Hk H. unfold notImplemented in H. apply append_inj_l in H.
  apply (f_equal list_ascii_of_string) in H. rewrite !chars_of_append in H.
  apply (f_equal (@rev ascii)) in H. rewrite !rev_app_distr in H.
  destruct Hk as [ -> | [ -> | -> ] ]; simpl in H; discriminate.
Qed.

(** C8, as amended. In [GlTiledTextureGeoTiffTiles.getFetchFunctionDef] a
    sample of format 3 is rejected with the generic message "(... bits,
    unknown uint/int/float)"; the callback of neither class ever produces
    the message "(... bits, float)", whose branch repeats the test
    [format === 2]; and in [GlTiledTextureGeoTiff] a sample of format 3 does
    not reach the callback: [loadImage_] rejects it first, with its own
    message. *)
Theorem float_message_is_never_produced :
  (forall (this : GeoTiffTiles.GlTiledTextureGeoTiffTiles) (u : string)
          (w : GeoTiffTiles.World) (img : Geotiff.GeoTIFFImage) (bits : option Z),
      GeoTiffTiles.deferred w (GeoTiffTiles.anyTile_ this) = Fulfilled img ->
      Geotiff.samplePair img (GeoTiffTiles.sample_ this) = Some (bits, Some 3%Z) ->
      GeoTiffTiles.getFetchFunctionDef this u w
      = Rejected (Str ("GeoTIFF pixel format not yet implemented ("
                       ++ show bits ++ " bits, unknown uint/int/float)")%string))
  /\
  (forall (this : GeoTiffTiles.GlTiledTextureGeoTiffTiles) (u : string)
          (img : Geotiff.GeoTIFFImage) (bits : option Z),
      GeoTiffTiles.getFetchFunctionDef_callback this u img
      <> Rejected (Str ("GeoTIFF pixel format not yet implemented ("
                        ++ show bits ++ " bits, float)")%string))
  /\
  (forall (this : GeoTiff.GlTiledTextureGeoTiff) (u : string)
          (img : Geotiff.GeoTIFFImage) (bits : option Z),
      GeoTiff.getFetchFunctionDef_callback this u img
      <> Rejected (Str ("GeoTIFF pixel format not yet implemented ("
                        ++ show bits ++ " bits, float)")%string))
  /\
  (forall (o : GeoTiff.Options) (u : string) (img : Geotiff.GeoTIFFImage) (bits : option Z),
      GeoTiff.image o = Fulfilled img ->
      GeoTiff.sample o < Geotiff.getSamplesPerPixel img ->
      (Geotiff.getWidth img * Geotiff.getHeight img <= maxIndex)%N ->
      Geotiff.samplePair img (GeoTiff.sample o) = Some (bits, Some 3%Z) ->
      GeoTiff.getFetchFunctionDef (GeoTiff.constructor o) u
      = Rejected
          (Str "FIXME: could not create empty tile data for GeoTIFF sample format, or unsupported (32-bit) format")).
Proof.
  assert (Hkinds : forall (r : Promise string) (b b' : option Z),
            (exists body, r = Fulfilled body) \/ r = Rejected TypeError \/
            (exists kind, (kind = "uint" \/ kind = "int" \/ kind = "unknown uint/int/float")
                          /\ r = Rejected (Str (notImplemented b kind))) ->
            r <> Rejected (Str (notImplemented b' "float"))).
  { intros r b b' [ (body & ->) | [ -> | (kind & Hk & ->) ] ] H; try discriminate.
    apply (not_the_float_message b b' kind Hk). congruence. }
  repeat split.
  - intros this u w img bits Hd Hp.
    unfold GeoTiffTiles.getFetchFunctionDef. rewrite Hd. simpl thenP.
    rewrite (tiles_callback_by_pair this u img bits (Some 3%Z) Hp).
    split_tests strictEq_spec; try reflexivity; discriminate.
  - intros this u img bits.
    apply (Hkinds _ (match Geotiff.BitsPerSample (Geotiff.getFileDirectory img) with
                     | Some b => nth_error b (GeoTiffTiles.sample_ this)
                     | None => None
                     end)).
    unfold GeoTiffTiles.getFetchFunctionDef_callback.
    destruct (Geotiff.BitsPerSample _) as [b|]; [|right; left; reflexivity].
    destruct (Geotiff.SampleFormat _) as [f|]; [|right; left; reflexivity].
    split_tests strictEq_spec;
      try (left; eexists; reflexivity);
      right; right; eexists; (split; [|reflexivity]); tauto.
  - intros this u img bits.
    apply (Hkinds _ (match Geotiff.BitsPerSample (Geotiff.getFileDirectory img) with
                     | Some b => nth_error b (GeoTiff.sample_ this)
                     | None => None
                     end)).
    unfold GeoTiff.getFetchFunctionDef_callback.
    destruct (Geotiff.BitsPerSample _) as [b|]; [|right; left; reflexivity].
    destruct (Geotiff.SampleFormat _) as [f|]; [|right; left; reflexivity].
    split_tests strictEq_spec;
      try (left; eexists; reflexivity);
      right; right; eexists; (split; [|reflexivity]); tauto.
  - intros o u img bits Himg Hs Hn Hp.
    rewrite (single_getFetchFunctionDef_by_pair o u img bits (Some 3%Z) Himg Hs Hn Hp).
    split_tests strictEq_spec; try reflexivity; discriminate.
Qed.

(** C8 as stated fails on [GlTiledTextureGeoTiff]: over a 32-bit float
    image the rejection message of [getFetchFunctionDef] is the message of
    [loadImage_], not the generic "not yet implemented" message. *)
Lemma getFetchFunctionDef_float_counterexample :
  let o := Example.single (Example.imageOf 32 3) in
  let r := GeoTiff.getFetchFunctionDef (GeoTiff.constructor o) "uTex" in
  Geotiff.samplePair (Example.imageOf 32 3) (GeoTiff.sample o) = Some (Some 32%Z, Some 3%Z) /\
  r = Rejected (Str GeoTiff.noEmptyTile) /\
  r <> Rejected (Str "GeoTIFF pixel format not yet implemented (32 bits, unknown uint/int/float)").
Proof.
  repeat split.
  vm_compute. discriminate.
Qed.

Lemma float_message_is_never_produced_witness :
  let w := GeoTiffTiles.run
             [GeoTiffTiles.Construct Example.floatTiles;
              GeoTiffTiles.Request (Example.dem, Example.request 0 0 0)]
             GeoTiffTiles.initialWorld in
  GeoTiffTiles.getFetchFunctionDef Example.dem "uTex" w
  = Rejected (Str "GeoTIFF pixel format not yet implemented (32 bits, unknown uint/int/float)").
Proof.
  apply (proj1 float_message_is_never_produced Example.dem "uTex"
           (GeoTiffTiles.run
              [GeoTiffTiles.Construct Example.floatTiles;
               GeoTiffTiles.Request (Example.dem, Example.request 0 0 0)]
              GeoTiffTiles.initialWorld)
           (Example.imageOf 32 3) (Some 32%Z)).
  - reflexivity.
  - reflexivity.
Defined.

End FetchFunction.

(** ** Pixel windows *)

Section PixelWindow.

Import Ol.
Local Open Scope float_scope.

(** An instance whose [tiff_] has an image was created over that image,
    which [loadImage_] accepted: its fields are those of lines 190-223. *)
Lemma constructor_loaded (o : GeoTiff.Options) (img : Geotiff.GeoTIFFImage) :
  GeoTiff.tiff_ (GeoTiff.constructor o) = Fulfilled img ->
  exists ty,
    GeoTiff.constructor o =
      GeoTiff.withTiff (Fulfilled img)
        (GeoTiff.withEmptyData
           (GeoTiff.filled ty (Geotiff.getWidth img * Geotiff.getHeight img) (GeoTiff.fillValue o))
           (GeoTiff.loadImage_dimensions img (GeoTiff.constructor_fields o))) /\
    ((Geotiff.samplePair img (GeoTiff.sample o) = Some (Some 8%Z, Some 1%Z) /\ ty = Uint8) \/
     (Geotiff.samplePair img (GeoTiff.sample o) = Some (Some 16%Z, Some 1%Z) /\ ty = Uint16) \/
     (Geotiff.samplePair img (GeoTiff.sample o) = Some (Some 16%Z, Some 2%Z) /\ ty = Int16)).
Proof.
  rewrite constructor_outcome.
  destruct (GeoTiff.image o) as [|img0|e]; simpl; try discriminate.
  unfold GeoTiff.loadImage_, Geotiff.samplePair. simpl.
  destruct (Nat.leb _ _); simpl; try discriminate.
  destruct (Geotiff.BitsPerSample _) as [b|] eqn:Eb; simpl; try discriminate.
  destruct (Geotiff.SampleFormat _) as [f|] eqn:Ef; simpl; try discriminate.
  destruct (strictEq_spec (nth_error b (GeoTiff.sample o)) 8) as [Hb8|Hb8];
    destruct (strictEq_spec (nth_error b (GeoTiff.sample o)) 16) as [Hb16|Hb16];
    destruct (strictEq_spec (nth_error f (GeoTiff.sample o)) 1) as [Hf1|Hf1];
    destruct (strictEq_spec (nth_error f (GeoTiff.sample o)) 2) as [Hf2|Hf2];
    simpl; try discriminate;
    destruct (N.leb _ _); simpl; try discriminate;
    intro H; injection H as <-; eexists; (split; [reflexivity|]);
    try congruence; rewrite Eb, Ef, ?Hb8, ?Hb16, ?Hf1, ?Hf2; tauto.
Qed.

(** [getTiledData] on an instance whose fields are set. *)
Lemma getTiledData_loaded (this : GeoTiff.GlTiledTextureGeoTiff) (p : TiledDataParameters)
    (tr : list Event) (img : Geotiff.GeoTIFFImage) (bbox : list float) (w h : N)
    (bw bh : float) :
  GeoTiff.tiff_ this = Fulfilled img ->
  GeoTiff.bbox_ this = Some bbox ->
  GeoTiff.width_ this = Some w ->
  GeoTiff.height_ this = Some h ->
  GeoTiff.bboxWidth_ this = Some bw ->
  GeoTiff.bboxHeight_ this = Some bh ->
  let x1 := ((num_at (tileExtent p) 2 - num_at bbox 0) / bw) * N2F w in
  let x2 := ((num_at (tileExtent p) 0 - num_at bbox 0) / bw) * N2F w in
  let y1 := ((num_at (tileExtent p) 3 - num_at bbox 1) / bh) * N2F h in
  let y2 := ((num_at (tileExtent p) 1 - num_at bbox 1) / bh) * N2F h in
  let opts :=
    {| Geotiff.window :=
         Some [Math_round x2; Math_round (N2F h - y1); Math_round x1; Math_round (N2F h - y2)];
       Geotiff.width := nth_error (tileSize p) 0;
       Geotiff.height := nth_error (tileSize p) 1;
       Geotiff.resampleMethod := Some "nearest"%string;
       Geotiff.samples := [GeoTiff.sample_ this];
       Geotiff.fillValue := GeoTiff.fillValue_ this;
       Geotiff.pool := GeoTiff.pool_ this |} in
  GeoTiff.getTiledData this p tr =
  if (x1 <? 0) || (N2F w <? x2) || (y1 <? 0) || (N2F h <? y2)
  then (Fulfilled (GeoTiff.emptyData_ this), tr)
  else (thenP (Geotiff.readRasters img opts) (fun rasters => Fulfilled (nth_error rasters 0)),
        (tr ++ [ReadRasters opts])%list).
Proof.
  intros Ht Hb Hw Hh Hbw Hbh. unfold GeoTiff.getTiledData, GeoTiff.pixelX, GeoTiff.pixelY.
  rewrite Ht, Hb, Hw, Hh, Hbw, Hbh. reflexivity.
Qed.

(** [checkRange k lo P] tests [P] on the [2 ^ k] integers from [lo] on. *)
Lemma checkRange_spec (k : nat) :
  forall (lo : Z) (P : Z -> bool),
    checkRange k lo P = true ->
    forall z, (lo <= z < lo + 2 ^ Z.of_nat k)%Z -> P z = true.
Proof.
  induction k as [|k IH]; intros lo P H z Hz.
  - simpl in *. replace z with lo by lia. exact H.
  - cbn [checkRange] in H. apply andb_prop in H. destruct H as [H1 H2].
    rewrite Nat2Z.inj_succ, Z.pow_succ_r in Hz by lia.
    destruct (Z_lt_le_dec z (lo + 2 ^ Z.of_nat k)).
    + apply (IH lo P H1). lia.
    + apply (IH _ P H2). lia.
Qed.

(** Every integer from -65536 to 65535 is a number, and truncating that
    number gives the integer back (checked on each of them). *)
Lemma truncZ_Z2F_checked :
  checkRange 17 (-65536) (fun z => (truncZ (Z2F z) =? z)%Z) = true.
Proof. vm_compute. reflexivity. Qed.

Lemma truncZ_Z2F (z : Z) : (-65536 <= z < 65536)%Z -> truncZ (Z2F z) = z.
Proof.
  intro Hz. apply Z.eqb_eq.
  apply (checkRange_spec 17 (-65536) (fun z => (truncZ (Z2F z) =? z)%Z) truncZ_Z2F_checked).
  change (2 ^ Z.of_nat 17)%Z with 131072%Z. lia.
Qed.

(** A fill value that is an integer of the element type is stored as it is. *)
Lemma coerce_inRange (ty : ElementType) (z : Z) :
  inRange ty z = true -> GeoTiff.coerce ty (Z2F z) = Z2F z.
Proof.
  destruct ty; simpl; try discriminate; intro H;
    apply andb_prop in H; destruct H as [H1 H2];
    apply Z.leb_le in H1; apply Z.ltb_lt in H2;
    unfold ToUint8, ToUint16, ToInt16; rewrite truncZ_Z2F by lia; f_equal.
  - apply Z.mod_small. lia.
  - rewrite Z.mod_small by lia. lia.
  - apply Z.mod_small. lia.
Qed.

(** What [getTiledData] does on an instance whose image has loaded. *)
Lemma getTiledData_constructed (o : GeoTiff.Options) (img : Geotiff.GeoTIFFImage)
    (p : TiledDataParameters) (tr : list Event) :
  GeoTiff.tiff_ (GeoTiff.constructor o) = Fulfilled img ->
  let W := N2F (Geotiff.getWidth img) in
  let H := N2F (Geotiff.getHeight img) in
  let bbox := Geotiff.getBoundingBox img in
  let bboxWidth := num_at bbox 2 - num_at bbox 0 in
  let bboxHeight := num_at bbox 3 - num_at bbox 1 in
  let x1 := ((num_at (tileExtent p) 2 - num_at bbox 0) / bboxWidth) * W in
  let x2 := ((num_at (tileExtent p) 0 - num_at bbox 0) / bboxWidth) * W in
  let y1 := ((num_at (tileExtent p) 3 - num_at bbox 1) / bboxHeight) * H in
  let y2 := ((num_at (tileExtent p) 1 - num_at bbox 1) / bboxHeight) * H in
  let opts :=
    {| Geotiff.window :=
         Some [Math_round x2; Math_round (H - y1); Math_round x1; Math_round (H - y2)];
       Geotiff.width := nth_error (tileSize p) 0;
       Geotiff.height := nth_error (tileSize p) 1;
       Geotiff.resampleMethod := Some "nearest"%string;
       Geotiff.samples := [GeoTiff.sample o];
       Geotiff.fillValue := GeoTiff.fillValue o;
       Geotiff.pool := GeoTiff.pool o |} in
  exists ty,
    ((Geotiff.samplePair img (GeoTiff.sample o) = Some (Some 8%Z, Some 1%Z) /\ ty = Uint8) \/
     (Geotiff.samplePair img (GeoTiff.sample o) = Some (Some 16%Z, Some 1%Z) /\ ty = Uint16) \/
     (Geotiff.samplePair img (GeoTiff.sample o) = Some (Some 16%Z, Some 2%Z) /\ ty = Int16)) /\
    GeoTiff.getTiledData (GeoTiff.constructor o) p tr =
    if (x1 <? 0) || (W <? x2) || (y1 <? 0) || (H <? y2)
    then (Fulfilled
            (Some (GeoTiff.filled ty (Geotiff.getWidth img * Geotiff.getHeight img)
                     (GeoTiff.fillValue o))), tr)
    else (thenP (Geotiff.readRasters img opts) (fun rasters => Fulfilled (nth_error rasters 0)),
          (tr ++ [ReadRasters opts])%list).
Proof.
  intros Hl. destruct (constructor_loaded o img Hl) as (ty & Hc & Hty).
  intros W H bbox bboxWidth bboxHeight x1 x2 y1 y2 opts. exists ty. split; [exact Hty|].
  rewrite Hc.
  rewrite (getTiledData_loaded
             (GeoTiff.withTiff (Fulfilled img)
                (GeoTiff.withEmptyData
                   (GeoTiff.filled ty (Geotiff.getWidth img * Geotiff.getHeight img)
                      (GeoTiff.fillValue o))
                   (GeoTiff.loadImage_dimensions img (GeoTiff.constructor_fields o))))
             p tr img bbox (Geotiff.getWidth img) (Geotiff.getHeight img)
             bboxWidth bboxHeight eq_refl eq_refl eq_refl eq_refl eq_refl eq_refl).
  reflexivity.
Qed.

(** C4. On an instance whose image has loaded, for a tile that the test of
    line 249 does not put out of bounds, [readRasters] is called with the
    window [[round x2, round (H - y1), round x1, round (H - y2)]], where [H]
    is the pixel height of the image, [x1] and [x2] are the right and left
    edges of the tile extent taken through [((x - bbox[0]) / bboxWidth) *
    width], and [y1] and [y2] its top and bottom edges taken through
    [((y - bbox[1]) / bboxHeight) * height]; the call resolves to the first
    raster read. *)
Theorem getTiledData_reads_pixel_window (o : GeoTiff.Options) (img : Geotiff.GeoTIFFImage)
    (p : TiledDataParameters) (tr : list Event) :
  GeoTiff.tiff_ (GeoTiff.constructor o) = Fulfilled img ->
  let W := N2F (Geotiff.getWidth img) in
  let H := N2F (Geotiff.getHeight img) in
  let bbox := Geotiff.getBoundingBox img in
  let bboxWidth := num_at bbox 2 - num_at bbox 0 in
  let bboxHeight := num_at bbox 3 - num_at bbox 1 in
  let x1 := ((num_at (tileExtent p) 2 - num_at bbox 0) / bboxWidth) * W in
  let x2 := ((num_at (tileExtent p) 0 - num_at bbox 0) / bboxWidth) * W in
  let y1 := ((num_at (tileExtent p) 3 - num_at bbox 1) / bboxHeight) * H in
  let y2 := ((num_at (tileExtent p) 1 - num_at bbox 1) / bboxHeight) * H in
  (x1 <? 0) = false -> (W <? x2) = false -> (y1 <? 0) = false -> (H <? y2) = false ->
  exists opts,
    Geotiff.window opts
      = Some [Math_round x2; Math_round (H - y1); Math_round x1; Math_round (H - y2)] /\
    GeoTiff.getTiledData (GeoTiff.constructor o) p tr
      = (thenP (Geotiff.readRasters img opts) (fun rasters => Fulfilled (nth_error rasters 0)),
         (tr ++ [ReadRasters opts])%list).
Proof.
  intros Hl W H bbox bboxWidth bboxHeight x1 x2 y1 y2 Hx1 Hx2 Hy1 Hy2.
  destruct (getTiledData_constructed o img p tr Hl) as (ty & _ & Hg).
  fold W H bbox bboxWidth bboxHeight x1 x2 y1 y2 in Hg.
  rewrite Hx1, Hx2, Hy1, Hy2 in Hg. simpl orb in Hg.
  eexists. split; [|exact Hg]. reflexivity.
Qed.

(** C9, as amended. On an instance whose image has loaded, for a tile that
    the test of line 249 puts out of bounds ([x1 < 0], [x2 > width],
    [y1 < 0] or [y2 > height]), the call resolves, without calling
    [readRasters], to the typed array built by [loadImage_]: its length is
    [width * height], its element type is Uint8 for (8, uint), Uint16 for
    (16, uint) and Int16 for (16, int), and every element is the configured
    fill value converted to that element type, which is the fill value
    itself when it is an integer the element type can hold. *)
Theorem getTiledData_out_of_bounds_is_fill (o : GeoTiff.Options) (img : Geotiff.GeoTIFFImage)
    (p : TiledDataParameters) (tr : list Event) :
  GeoTiff.tiff_ (GeoTiff.constructor o) = Fulfilled img ->
  let W := N2F (Geotiff.getWidth img) in
  let H := N2F (Geotiff.getHeight img) in
  let bbox := Geotiff.getBoundingBox img in
  let bboxWidth := num_at bbox 2 - num_at bbox 0 in
  let bboxHeight := num_at bbox 3 - num_at bbox 1 in
  let x1 := ((num_at (tileExtent p) 2 - num_at bbox 0) / bboxWidth) * W in
  let x2 := ((num_at (tileExtent p) 0 - num_at bbox 0) / bboxWidth) * W in
  let y1 := ((num_at (tileExtent p) 3 - num_at bbox 1) / bboxHeight) * H in
  let y2 := ((num_at (tileExtent p) 1 - num_at bbox 1) / bboxHeight) * H in
  (x1 <? 0) = true \/ (W <? x2) = true \/ (y1 <? 0) = true \/ (H <? y2) = true ->
  exists d,
    GeoTiff.getTiledData (GeoTiff.constructor o) p tr = (Fulfilled (Some d), tr) /\
    List.length (elements d) = N.to_nat (Geotiff.getWidth img * Geotiff.getHeight img) /\
    Forall (fun e => e = GeoTiff.coerce (elementType d) (GeoTiff.fillValue o)) (elements d) /\
    (forall z, GeoTiff.fillValue o = Z2F z -> inRange (elementType d) z = true ->
               Forall (fun e => e = GeoTiff.fillValue o) (elements d)) /\
    ((Geotiff.samplePair img (GeoTiff.sample o) = Some (Some 8%Z, Some 1%Z)
      /\ elementType d = Uint8) \/
     (Geotiff.samplePair img (GeoTiff.sample o) = Some (Some 16%Z, Some 1%Z)
      /\ elementType d = Uint16) \/
     (Geotiff.samplePair img (GeoTiff.sample o) = Some (Some 16%Z, Some 2%Z)
      /\ elementType d = Int16)).
Proof.
  intros Hl W H bbox bboxWidth bboxHeight x1 x2 y1 y2 Hout.
  destruct (getTiledData_constructed o img p tr Hl) as (ty & Hty & Hg).
  fold W H bbox bboxWidth bboxHeight x1 x2 y1 y2 in Hg.
  assert (Ht : (x1 <? 0) || (W <? x2) || (y1 <? 0) || (H <? y2) = true).
  { destruct Hout as [E|[E|[E|E]]]; rewrite E; rewrite ?orb_true_r; reflexivity. }
  rewrite Ht in Hg.
  exists (GeoTiff.filled ty (Geotiff.getWidth img * Geotiff.getHeight img) (GeoTiff.fillValue o)).
  split; [exact Hg|]. unfold GeoTiff.filled. cbn [elements elementType].
  assert (Hall : Forall (fun e => e = GeoTiff.coerce ty (GeoTiff.fillValue o))
                   (repeat (GeoTiff.coerce ty (GeoTiff.fillValue o))
                      (N.to_nat (Geotiff.getWidth img * Geotiff.getHeight img)))).
  { apply Forall_forall. intros e He. apply repeat_spec in He. exact He. }
  split; [apply repeat_length|]. split; [exact Hall|]. split; [|exact Hty].
  intros z Hz Hr. rewrite Hz in Hall |- *. rewrite (coerce_inRange ty z Hr) in Hall |- *.
  exact Hall.
Qed.

End PixelWindow.

Lemma getTiledData_reads_pixel_window_witness :
  exists opts,
    Geotiff.window opts = Some [0; 0; 2; 1]%float /\
    GeoTiff.getTiledData (GeoTiff.constructor (Example.single Example.image16)) Example.inside []
      = (thenP (Geotiff.readRasters Example.image16 opts)
           (fun rasters => Fulfilled (nth_error rasters 0)),
         [] ++ [ReadRasters opts]).
Proof.
  apply (getTiledData_reads_pixel_window (Example.single Example.image16) Example.image16
           Example.inside []); vm_compute; reflexivity.
Defined.

(** C9 as stated fails: with the fill value of the example, -999, over a
    16-bit unsigned image, the elements of the array returned for a tile out
    of bounds are 64537, not the fill value. *)
Lemma getTiledData_out_of_bounds_counterexample :
  let o := Example.single Example.image16 in
  exists d,
    GeoTiff.getTiledData (GeoTiff.constructor o) Example.outside [] = (Fulfilled (Some d), []) /\
    elements d = [64537; 64537]%float /\
    GeoTiff.fillValue o = (-999)%float /\
    ~ Forall (fun e => e = GeoTiff.fillValue o) (elements d).
Proof.
  exists {| elementType := Uint16; elements := [64537; 64537]%float |}.
  repeat split. intro H. inversion H as [|e l He _]. simpl in He.
  apply (f_equal (fun x => PrimFloat.ltb x 0)) in He. vm_compute in He. discriminate.
Qed.

Lemma getTiledData_out_of_bounds_is_fill_witness :
  let o := Example.single Example.image16 in
  exists d,
    GeoTiff.getTiledData (GeoTiff.constructor o) Example.outside [] = (Fulfilled (Some d), []) /\
    List.length (elements d) = 2 /\
    Forall (fun e => e = GeoTiff.coerce (elementType d) (GeoTiff.fillValue o)) (elements d) /\
    (forall z, GeoTiff.fillValue o = Z2F z -> inRange (elementType d) z = true ->
               Forall (fun e => e = GeoTiff.fillValue o) (elements d)) /\
    ((Geotiff.samplePair Example.image16 (GeoTiff.sample o) = Some (Some 8%Z, Some 1%Z)
      /\ elementType d = Uint8) \/
     (Geotiff.samplePair Example.image16 (GeoTiff.sample o) = Some (Some 16%Z, Some 1%Z)
      /\ elementType d = Uint16) \/
     (Geotiff.samplePair Example.image16 (GeoTiff.sample o) = Some (Some 16%Z, Some 2%Z)
      /\ elementType d = Int16)).
Proof.
  apply (getTiledData_out_of_bounds_is_fill (Example.single Example.image16) Example.image16
           Example.outside []).
  - vm_compute. reflexivity.
  - right. left. vm_compute. reflexivity.
Defined.

(** The same request over a 16-bit signed image: -999 is an integer the
    element type can hold, and the elements are the fill value. *)
Example out_of_bounds_int16 :
  GeoTiff.getTiledData (GeoTiff.constructor (Example.single (Example.imageOf 16 2)))
    Example.outside []
  = (Fulfilled (Some {| elementType := Int16; elements := [(-999); (-999)]%float |}), []).
Proof. vm_compute. reflexivity. Qed.

(** ** The cache after a history of requests *)

Section LastN.

Variable A : Type.

Lemma lastn_all (n : nat) (l : list A) : List.length l <= n -> lastn n l = l.
Proof.
  intro H. unfold lastn. replace (List.length l - n) with 0 by lia. reflexivity.
Qed.

Lemma lastn_app (n : nat) (a b : list A) : List.length b = n -> lastn n (a ++ b) = b.
Proof.
  intro H. unfold lastn. rewrite length_app.
  replace (List.length a + List.length b - n) with (List.length a) by lia.
  rewrite skipn_app, skipn_all, Nat.sub_diag. reflexivity.
Qed.

Lemma lastn_length (n : nat) (l : list A) :
  List.length (lastn n l) = Nat.min n (List.length l).
Proof. unfold lastn. rewrite length_skipn. lia. Qed.

Lemma lastn_split (n : nat) (l : list A) :
  l = firstn (List.length l - n) l ++ lastn n l.
Proof. unfold lastn. symmetry. apply firstn_skipn. Qed.

Lemma lastn_incl (n : nat) (l : list A) (a : A) : In a (lastn n l) -> In a l.
Proof. intro H. rewrite (lastn_split n l). apply in_or_app. right. exact H. Qed.

Lemma lastn_NoDup (n : nat) (l : list A) : NoDup l -> NoDup (lastn n l).
Proof.
  intro H. rewrite (lastn_split n l) in H. exact (NoDup_app_remove_l _ _ H).
Qed.

Lemma NoDup_app_disjoint (a b : list A) (x : A) :
  NoDup (a ++ b) -> In x a -> ~ In x b.
Proof.
  induction a as [|y a IH]; simpl; intros Hnd Hin; [contradiction|].
  inversion Hnd as [|? ? Hny Hnd']; subst. destruct Hin as [->|Hin].
  - intro Hb. apply Hny. apply in_or_app. right. exact Hb.
  - exact (IH Hnd' Hin).
Qed.

End LastN.

Arguments lastn_all {A} n l.
Arguments lastn_app {A} n a b.
Arguments lastn_length {A} n l.
Arguments lastn_split {A} n l.
Arguments lastn_incl {A} n l a.
Arguments lastn_NoDup {A} n l.
Arguments NoDup_app_disjoint {A} a b x.

Section Touch.

Import Ol.

Lemma other_absent (u : Url) (l : list Url) :
  ~ In u l -> filter (fun a => if Url_eq_dec u a then false else true) l = l.
Proof.
  induction l as [|a l IH]; simpl; intro H; [reflexivity|].
  destruct (Url_eq_dec u a) as [->|Hne].
  - exfalso. apply H. left. reflexivity.
  - f_equal. apply IH. intro Hin. apply H. right. exact Hin.
Qed.

Lemma other_present_length (u : Url) (l : list Url) :
  NoDup l -> In u l ->
  S (List.length (filter (fun a => if Url_eq_dec u a then false else true) l)) = List.length l.
Proof.
  induction 1 as [|a l Hna Hnd IH]; simpl; intro Hin; [contradiction|].
  destruct (Url_eq_dec u a) as [->|Hne].
  - rewrite (other_absent _ _ Hna). reflexivity.
  - simpl. destruct Hin as [Hin|Hin]; [congruence|]. rewrite (IH Hin). reflexivity.
Qed.

Lemma in_touch (u a : Url) (l : list Url) : In a (touch u l) <-> a = u \/ In a l.
Proof.
  unfold touch. rewrite in_app_iff, filter_In. simpl.
  destruct (Url_eq_dec u a) as [->|Hne]; intuition congruence.
Qed.

Lemma NoDup_touch (u : Url) (l : list Url) : NoDup l -> NoDup (touch u l).
Proof.
  intro H. unfold touch. apply NoDup_app.
  - apply NoDup_filter. exact H.
  - constructor; [intros [] | constructor].
  - intros a Hin [<-|[]]. apply filter_In in Hin. destruct Hin as [_ Hin].
    destruct (Url_eq_dec u u); [discriminate | congruence].
Qed.

Lemma recency_snoc (h : list Url) (u : Url) : recency (h ++ [u]) = touch u (recency h).
Proof. unfold recency. rewrite fold_left_app. reflexivity. Qed.

Lemma NoDup_recency (h : list Url) : NoDup (recency h).
Proof.
  induction h as [|u h IH] using rev_ind.
  - constructor.
  - rewrite recency_snoc. apply NoDup_touch. exact IH.
Qed.

Lemma in_recency (h : list Url) (u : Url) : In u (recency h) <-> In u h.
Proof.
  induction h as [|a h IH] using rev_ind.
  - simpl. tauto.
  - rewrite recency_snoc, in_touch, in_app_iff, IH. simpl. intuition congruence.
Qed.

(** How the last [n] keys in order of use change with one more use, in
    the three ways a request can go. *)
Lemma lastn_touch_hit (n : nat) (u : Url) (l : list Url) :
  NoDup l -> In u (lastn n l) ->
  lastn n (touch u l) = touch u (lastn n l).
Proof.
  intros Hnd Hin. unfold touch at 1. rewrite (lastn_split n l) at 1.
  rewrite filter_app, <- app_assoc. fold (touch u (lastn n l)).
  assert (Hpre : ~ In u (firstn (List.length l - n) l)).
  { intro Hpre. rewrite (lastn_split n l) in Hnd.
    exact (NoDup_app_disjoint _ _ _ Hnd Hpre Hin). }
  rewrite (other_absent _ _ Hpre).
  assert (Hlen : List.length (touch u (lastn n l)) = List.length (lastn n l)).
  { unfold touch. rewrite length_app. simpl.
    rewrite <- (other_present_length u (lastn n l)); [lia | apply lastn_NoDup; exact Hnd | exact Hin]. }
  destruct (Nat.le_gt_cases (List.length l) n) as [Hle|Hgt].
  - replace (List.length l - n) with 0 by lia. simpl. apply lastn_all.
    rewrite Hlen, lastn_length. lia.
  - apply lastn_app. rewrite Hlen, lastn_length. lia.
Qed.

Lemma lastn_touch_room (n : nat) (u : Url) (l : list Url) :
  ~ In u (lastn n l) -> List.length (lastn n l) < n ->
  lastn n (touch u l) = lastn n l ++ [u].
Proof.
  intros Hin Hlt. rewrite lastn_length in Hlt.
  assert (Hall : lastn n l = l) by (apply lastn_all; lia).
  rewrite Hall in *. unfold touch. rewrite (other_absent _ _ Hin).
  apply lastn_all. rewrite length_app. simpl. lia.
Qed.

Lemma lastn_touch_full (n : nat) (u k0 : Url) (l rest : list Url) :
  ~ In u (lastn n l) -> lastn n l = k0 :: rest -> n <= List.length (lastn n l) ->
  lastn n (touch u l) = rest ++ [u].
Proof.
  intros Hin Hk Hfull. unfold touch. rewrite (lastn_split n l) at 1.
  rewrite filter_app, (other_absent _ _ Hin), Hk.
  assert (Hlen : List.length (rest ++ [u]) = n).
  { rewrite length_app. simpl. rewrite lastn_length in Hfull.
    pose proof (lastn_length n l) as Hl. rewrite Hk in Hl. simpl in Hl. lia. }
  replace ((filter (fun a => if Url_eq_dec u a then false else true)
              (firstn (List.length l - n) l) ++ k0 :: rest) ++ [u])
    with ((filter (fun a => if Url_eq_dec u a then false else true)
              (firstn (List.length l - n) l) ++ [k0]) ++ (rest ++ [u]))
    by (repeat (rewrite <- app_assoc; simpl); reflexivity).
  apply lastn_app. exact Hlen.
Qed.

End Touch.

Section CacheContents.

Import Ol GeoTiffTiles.

(** The keys of the cache are the last 16 of the requested URLs in the
    order of their last request. *)
Lemma keys_recency (acts : list Action) :
  LRUCache.keys (geotiffCache (run acts initialWorld)) = lastn 16 (recency (requests acts)).
Proof.
  induction acts as [|a acts IH] using rev_ind; [reflexivity|].
  rewrite run_snoc, requests_snoc. destruct a as [o|c].
  - simpl. rewrite app_nil_r. exact IH.
  - simpl requests. rewrite recency_snoc.
    destruct (invariant_run acts) as (Hhwm & Hcnt & _).
    assert (Hlen : LRUCache.getCount (geotiffCache (run acts initialWorld))
                   = List.length (lastn 16 (recency (requests acts)))).
    { rewrite <- IH. unfold LRUCache.getCount, LRUCache.keys. rewrite length_map. reflexivity. }
    destruct (request_cases c (run acts initialWorld)) as (_ & Hcases); [lia|].
    cbv zeta in Hcases. rewrite Hhwm, Hlen, IH in Hcases.
    destruct Hcases as [(Hin & _ & Hk & _)|[(Hnin & Hlt & _ & He)|(e0 & rest & Hnin & Hge & He & _ & He')]].
    + rewrite Hk. symmetry. apply lastn_touch_hit; [apply NoDup_recency | exact Hin].
    + unfold LRUCache.keys. rewrite He, map_app. simpl.
      fold (LRUCache.keys (geotiffCache (run acts initialWorld))). rewrite IH.
      symmetry. apply lastn_touch_room; assumption.
    + unfold LRUCache.keys. rewrite He', map_app. simpl.
      symmetry. apply lastn_touch_full with (k0 := fst e0); [exact Hnin | | exact Hge].
      rewrite <- IH. unfold LRUCache.keys. rewrite He. reflexivity.
Qed.

(** X1. After any sequence of constructions and requests from the initial
    module state, the keys of the shared cache, oldest first, are exactly
    the last 16 of the distinct requested URLs in the order of their last
    request; so no URL is cached twice, the number of entries is the
    number of distinct URLs requested when that is below 16 and 16
    otherwise, and a URL is cached if and only if it is among those last
    16. *)
Theorem cache_is_last_16_urls_by_last_request (acts : list Action) :
  let c := geotiffCache (run acts initialWorld) in
  let order := recency (requests acts) in
  LRUCache.keys c = lastn 16 order /\
  NoDup (LRUCache.keys c) /\
  LRUCache.getCount c = Nat.min 16 (List.length order) /\
  (forall u, In u order <-> In u (requests acts)) /\
  (forall u, LRUCache.containsKey Url_eq_dec u c = true <-> In u (lastn 16 order)).
Proof.
  intros c order. subst c order. pose proof (keys_recency acts) as Hk.
  split; [exact Hk|]. split; [|split; [|split]].
  - rewrite Hk. apply lastn_NoDup, NoDup_recency.
  - rewrite <- lastn_length, <- Hk. unfold LRUCache.getCount, LRUCache.keys.
    rewrite length_map. reflexivity.
  - intro u. apply in_recency.
  - intro u. rewrite <- Hk. apply containsKey_In.
Qed.

End CacheContents.

(** ** What a request does to the promises already cached *)

Section Lookup.

Variables K V : Type.
Variable dec : forall a b : K, {a = b} + {a <> b}.

Lemma find_filter_other (k k' : K) (l : list (K * V)) :
  k <> k' ->
  find (LRUCache.hasKey dec k) (filter (fun e => negb (LRUCache.hasKey dec k' e)) l)
  = find (LRUCache.hasKey dec k) l.
Proof.
  intro Hne. induction l as [|a l IH]; simpl; [reflexivity|].
  destruct (LRUCache.hasKey dec k' a) eqn:E'; simpl.
  - destruct (LRUCache.hasKey dec k a) eqn:E; [|exact IH].
    apply hasKey_true in E. apply hasKey_true in E'. congruence.
  - rewrite IH. reflexivity.
Qed.

Lemma find_In (k : K) (l : list (K * V)) (e : K * V) :
  find (LRUCache.hasKey dec k) l = Some e -> In e l /\ fst e = k.
Proof.
  intro H. apply find_some in H. destruct H as [Hin He].
  apply hasKey_true in He. split; [exact Hin | congruence].
Qed.

Lemma lookup_In (k : K) (v : V) (c : LRUCache.t K V) :
  LRUCache.lookup dec k c = Some v -> In (k, v) (LRUCache.entries c).
Proof.
  unfold LRUCache.lookup.
  destruct (find (LRUCache.hasKey dec k) (LRUCache.entries c)) as [[a x]|] eqn:E; simpl; intro H.
  - apply find_In in E. destruct E as [Hin He]. simpl in He. congruence.
  - discriminate.
Qed.

Lemma find_other_last (k k' : K) (v : V) (l : list (K * V)) :
  k <> k' ->
  find (LRUCache.hasKey dec k) (l ++ [(k', v)]) = find (LRUCache.hasKey dec k) l.
Proof.
  intro Hne. rewrite find_last.
  destruct (find (LRUCache.hasKey dec k) l); [reflexivity|].
  destruct (LRUCache.hasKey dec k (k', v)) eqn:E; [|reflexivity].
  apply hasKey_true in E. simpl in E. congruence.
Qed.

Lemma find_new_last (k : K) (v : V) (l : list (K * V)) :
  ~ In k (map fst l) -> find (LRUCache.hasKey dec k) (l ++ [(k, v)]) = Some (k, v).
Proof.
  intro H. rewrite find_last, (find_absent _ _ dec k l H).
  unfold LRUCache.hasKey. simpl. destruct (dec k k); [reflexivity | congruence].
Qed.

End Lookup.

Arguments find_filter_other {K V} dec k k' l.
Arguments find_In {K V} dec k l e.
Arguments lookup_In {K V} dec k v c.
Arguments find_other_last {K V} dec k k' v l.
Arguments find_new_last {K V} dec k v l.

Section Frame.

Import Ol GeoTiffTiles.

(** The three ways a request can go, seen from the entries of the cache. *)
Lemma request_entries (c : Call) (w : World) :
  1 <= LRUCache.highWaterMark (geotiffCache w) ->
  let url := callUrl c in
  let cache := geotiffCache w in
  let cache' := geotiffCache (step w (Request c)) in
  (exists v,
     LRUCache.lookup Url_eq_dec url cache = Some v /\
     LRUCache.entries cache' =
       filter (fun e => negb (LRUCache.hasKey Url_eq_dec url e)) (LRUCache.entries cache)
       ++ [(url, v)])
  \/
  (LRUCache.containsKey Url_eq_dec url cache = false /\
   LRUCache.getCount cache < LRUCache.highWaterMark cache /\
   LRUCache.entries cache' = LRUCache.entries cache ++ [(url, factory_ (fst c) url)])
  \/
  (exists e0 rest,
     LRUCache.containsKey Url_eq_dec url cache = false /\
     LRUCache.highWaterMark cache <= LRUCache.getCount cache /\
     LRUCache.entries cache = e0 :: rest /\
     LRUCache.entries cache' = rest ++ [(url, factory_ (fst c) url)]).
Proof.
  intros Hcap url cache cache'. subst url cache cache'. destruct c as [this p].
  unfold step. simpl fst. simpl snd. rewrite getTiledData_parts.
  rewrite (proj1 (decode_world this p _ _)).
  destruct (instance_cases this (callUrl (this, p)) w Hcap) as (_ & _ & Hcases).
  destruct Hcases as [(v & _ & Hv & _ & _ & He)
                     |[(Hc & _ & Hlt & _ & He)
                      |(e0 & rest & Hc & _ & Hge & Hent & _ & He)]].
  - left. exists v. split; assumption.
  - right. left. repeat split; assumption.
  - right. right. exists e0, rest. repeat split; assumption.
Qed.

(** X2. A request made in any state the module can reach never replaces
    or alters a promise that is cached: every entry of the cache after
    the request was there before with the same promise, except the entry
    of the requested URL when that URL was not a key, whose promise is
    the result of the factory; and every entry that was there before is
    still there with the same promise, except the oldest one when the
    cache held 16 entries and the requested URL was not a key. *)
Theorem request_never_replaces_a_cached_promise (acts : list Action) (c : Call) :
  let w := run acts initialWorld in
  let w' := step w (Request c) in
  let url := callUrl c in
  forall k v,
    (LRUCache.lookup Url_eq_dec k (geotiffCache w') = Some v ->
       LRUCache.lookup Url_eq_dec k (geotiffCache w) = Some v \/
       (k = url /\ LRUCache.containsKey Url_eq_dec url (geotiffCache w) = false /\
        v = factory_ (fst c) url)) /\
    (LRUCache.lookup Url_eq_dec k (geotiffCache w) = Some v ->
       LRUCache.lookup Url_eq_dec k (geotiffCache w') = Some v \/
       (LRUCache.containsKey Url_eq_dec k (geotiffCache w') = false /\
        hd_error (LRUCache.keys (geotiffCache w)) = Some k /\
        LRUCache.getCount (geotiffCache w) = 16 /\
        LRUCache.containsKey Url_eq_dec url (geotiffCache w) = false)).
Proof.
  intros w w' url k v. subst w' url.
  destruct (invariant_run acts) as (Hhwm & Hcnt & _). fold w in Hhwm, Hcnt.
  assert (Hnd : NoDup (LRUCache.keys (geotiffCache w))).
  { unfold w. rewrite keys_recency. apply lastn_NoDup, NoDup_recency. }
  destruct (request_entries c w) as [(x & Hx & He)|[(Hc & Hlt & He)|(e0 & rest & Hc & Hge & Hent & He)]];
    [lia | | |]; unfold LRUCache.lookup in *; rewrite He.
  - destruct (Url_eq_dec k (callUrl c)) as [->|Hne].
    + rewrite (find_new_last Url_eq_dec (callUrl c) x _ (not_in_filter_other _ _ _ _ _)).
      simpl. split; intro H; left; congruence.
    + rewrite (find_other_last Url_eq_dec k (callUrl c) x _ Hne),
        (find_filter_other Url_eq_dec k (callUrl c) _ Hne).
      split; intro H; left; exact H.
  - pose proof (proj1 (containsKey_not_In _ _ _ _ _) Hc) as Hc'.
    destruct (Url_eq_dec k (callUrl c)) as [->|Hne].
    + rewrite (find_new_last Url_eq_dec (callUrl c) _ _ Hc'),
        (find_absent _ _ Url_eq_dec (callUrl c) _ Hc').
      simpl. split; intro H; [right | discriminate].
      repeat split; [exact Hc | congruence].
    + rewrite (find_other_last Url_eq_dec k (callUrl c) _ _ Hne).
      split; intro H; left; exact H.
  - pose proof (proj1 (containsKey_not_In _ _ _ _ _) Hc) as Hc'.
    unfold LRUCache.keys in Hnd, Hc'. rewrite Hent in Hnd, Hc' |- *. simpl in Hnd.
    inversion Hnd as [|? ? Hn0 Hnd']; subst.
    destruct (Url_eq_dec k (callUrl c)) as [->|Hne].
    + rewrite (find_new_last Url_eq_dec (callUrl c) _ rest),
        (find_absent _ _ Url_eq_dec (callUrl c) (e0 :: rest) Hc');
        [|intro Hin; apply Hc'; right; exact Hin].
      simpl. split; intro H; [right | discriminate].
      repeat split; [exact Hc | congruence].
    + rewrite (find_other_last Url_eq_dec k (callUrl c) _ _ Hne). simpl find.
      destruct (LRUCache.hasKey Url_eq_dec k e0) eqn:E0.
      * apply hasKey_true in E0. subst k.
        rewrite (find_absent _ _ Url_eq_dec (fst e0) rest Hn0). simpl.
        split; intro H; [discriminate | right].
        repeat split.
        -- change (snd (getTiledData (fst c) (snd c) w)) with (step w (Request c)).
           apply containsKey_not_In. unfold LRUCache.keys. rewrite He, map_app.
           simpl. intro Hin. apply in_app_or in Hin.
           destruct Hin as [Hin|[Hin|[]]]; [exact (Hn0 Hin) | congruence].
        -- unfold LRUCache.keys. rewrite Hent. reflexivity.
        -- unfold LRUCache.getCount in *. rewrite Hent in *. lia.
        -- exact Hc.
      * split; intro H; left; exact H.
Qed.

End Frame.

(** ** Where the cached promises come from *)

Section Provenance.

Import Ol GeoTiffTiles.

Lemma madeBy_snoc (acts : list Action) (a : Action) (e : Url * Promise Geotiff.GeoTIFF) :
  madeBy acts e -> madeBy (acts ++ [a]) e.
Proof.
  intros (c & Hin & H). exists c. split; [apply in_or_app; left; exact Hin | exact H].
Qed.

(** X3. After any sequence of constructions and requests from the initial
    module state, every entry of the shared cache was made by a request
    of the sequence for the entry's URL: its promise is the result of the
    factory of the instance that made that request, called on that URL.
    The cache never holds a promise under another URL than the one the
    factory was given; it may hold, under a URL, the promise made by the
    factory of another instance than the one asking. *)
Theorem cached_promises_come_from_a_factory_call_on_their_url (acts : list Action) :
  Forall
    (fun e => exists c,
       In (Request c) acts /\ callUrl c = fst e /\ snd e = factory_ (fst c) (fst e))
    (LRUCache.entries (geotiffCache (run acts initialWorld))).
Proof.
  change (Forall (madeBy acts) (LRUCache.entries (geotiffCache (run acts initialWorld)))).
  induction acts as [|a acts IH] using rev_ind; [constructor|].
  assert (IH' : Forall (madeBy (acts ++ [a]))
                  (LRUCache.entries (geotiffCache (run acts initialWorld)))).
  { eapply Forall_impl; [|exact IH]. intros e. apply madeBy_snoc. }
  rewrite run_snoc. destruct a as [o|c]; [exact IH'|].
  destruct (invariant_run acts) as (Hhwm & _).
  assert (Hnew : madeBy (acts ++ [Request c]) (callUrl c, factory_ (fst c) (callUrl c))).
  { exists c. repeat split. apply in_or_app. right. left. reflexivity. }
  destruct (request_entries c (run acts initialWorld))
    as [(x & Hx & He)|[(Hc & Hlt & He)|(e0 & rest & Hc & Hge & Hent & He)]];
    [lia | | |]; rewrite He; apply Forall_app; split.
  - rewrite Forall_forall in *. intros e He'. apply filter_In in He'. apply IH'. tauto.
  - constructor; [|constructor]. rewrite Forall_forall in IH'.
    apply IH'. apply (lookup_In Url_eq_dec). exact Hx.
  - exact IH'.
  - constructor; [exact Hnew | constructor].
  - rewrite Hent in IH'. inversion IH'; assumption.
  - constructor; [exact Hnew | constructor].
Qed.

End Provenance.

(** ** Several requests for one tile *)

Section SharedPromise.

Import Ol GeoTiffTiles.

(** One call, on a cache of the capacity the module gives it. *)
Lemma call_summary (this : GlTiledTextureGeoTiffTiles) (p : TiledDataParameters) (w : World) :
  LRUCache.highWaterMark (geotiffCache w) = 16 ->
  let url := callUrl (this, p) in
  let r := getTiledData this p w in
  LRUCache.highWaterMark (geotiffCache (snd r)) = 16 /\
  exists instance evs,
    trace (snd r) = trace w ++ evs /\
    fst r = decoded this p instance /\
    LRUCache.lookup Url_eq_dec url (geotiffCache (snd r)) = Some instance /\
    ((LRUCache.lookup Url_eq_dec url (geotiffCache w) = Some instance /\
      factoryCalls evs = [])
     \/
     (LRUCache.containsKey Url_eq_dec url (geotiffCache w) = false /\
      instance = factory_ this url /\ factoryCalls evs = [url])).
Proof.
  intros Hcap url r. subst r. rewrite getTiledData_parts. fold url.
  assert (H1 : 1 <= LRUCache.highWaterMark (geotiffCache w)) by lia.
  destruct (instance_cases this url w H1) as (Hh & _ & Hcases).
  destruct (decode_effects this p (fst (getTiledData_instance this url w))
              (snd (getTiledData_instance this url w)))
    as (Hfst & Hcache & evs & Htr & Hf & _ & _).
  rewrite Hfst, Hcache, Htr. split; [congruence|].
  destruct Hcases as [(v & Hc & Hv & Hi & Ht & He)
                     |[(Hc & Hi & _ & Ht & He)
                      |(e0 & rest & Hc & Hi & _ & Hent & Ht & He)]].
  - exists v, evs. rewrite Hi, Ht. repeat split.
    + unfold LRUCache.lookup. rewrite He.
      rewrite (find_new_last Url_eq_dec url v _ (not_in_filter_other _ _ _ _ _)). reflexivity.
    + left. split; assumption.
  - exists (factory_ this url), ([FactoryCall url] ++ evs).
    rewrite Hi, Ht, <- app_assoc. repeat split.
    + unfold LRUCache.lookup. rewrite He.
      rewrite (find_new_last Url_eq_dec url _ _ (proj1 (containsKey_not_In _ _ _ _ _) Hc)).
      reflexivity.
    + right. repeat split; [exact Hc|]. rewrite factoryCalls_app, Hf. reflexivity.
  - exists (factory_ this url), ([FactoryCall url; CacheEvict (fst e0)] ++ evs).
    rewrite Hi, Ht, <- app_assoc. repeat split.
    + unfold LRUCache.lookup. rewrite He. rewrite (find_new_last Url_eq_dec url _ rest); [reflexivity|].
      apply containsKey_not_In in Hc. unfold LRUCache.keys in Hc. rewrite Hent in Hc.
      intro Hin. apply Hc. right. exact Hin.
    + right. repeat split; [exact Hc|]. rewrite factoryCalls_app, Hf. reflexivity.
Qed.

(** Requests for a URL that is a key: all hang on the cached promise. *)
Lemma cached_run (url : Url) (P : Promise Geotiff.GeoTIFF) (cs : list Call) :
  forall w : World,
  LRUCache.highWaterMark (geotiffCache w) = 16 ->
  Forall (fun c => callUrl c = url) cs ->
  LRUCache.lookup Url_eq_dec url (geotiffCache w) = Some P ->
  (forall pre c post,
     cs = pre ++ c :: post ->
     fst (getTiledData (fst c) (snd c) (run (map Request pre) w)) = decoded (fst c) (snd c) P) /\
  exists evs, trace (run (map Request cs) w) = trace w ++ evs /\ factoryCalls evs = [].
Proof.
  induction cs as [|[this p] cs IH]; intros w Hcap Hall HP.
  - split; [intros [|? ?] ? ? H; discriminate|]. exists []. simpl. rewrite app_nil_r. split; reflexivity.
  - inversion Hall as [|? ? Hu Hall']; subst.
    destruct (call_summary this p w Hcap) as (Hcap' & inst & evs & Ht & Hr & Hl & Hcase).
    assert (Hinst : inst = P).
    { destruct Hcase as [(Hb & _)|(Hc & _)]; [congruence|].
      rewrite (lookup_absent _ _ _ _ _ Hc) in HP. discriminate. }
    assert (Hf : factoryCalls evs = []).
    { destruct Hcase as [(_ & Hf)|(Hc & _)]; [exact Hf|].
      rewrite (lookup_absent _ _ _ _ _ Hc) in HP. discriminate. }
    subst inst.
    destruct (IH (snd (getTiledData this p w)) Hcap' Hall' Hl) as (Hcalls & evs' & Ht' & Hf').
    split.
    + intros [|c0 pre] c post H; simpl in H; injection H as H1 H2; subst.
      * exact Hr.
      * exact (Hcalls pre c post eq_refl).
    + exists (evs ++ evs').
      change (run (map Request ((this, p) :: cs)) w)
        with (run (map Request cs) (snd (getTiledData this p w))).
      rewrite Ht', Ht, <- app_assoc, factoryCalls_app, Hf, Hf'. split; reflexivity.
Qed.

(** X4. Requests for one tile URL made one after the other, by any
    instances (the four channels of one file, say) and in any state whose
    cache has the module's capacity, all hang on one and the same GeoTIFF
    promise: the cached one if the URL was a key, and otherwise the one
    the factory of the first requesting instance returns. The factory is
    called once if the URL was not a key and not at all if it was,
    whatever the promise comes to: a rejected promise is handed to every
    one of the calls. *)
Theorem requests_for_one_url_share_one_promise (w : World) (c : Call) (cs : list Call) :
  LRUCache.highWaterMark (geotiffCache w) = 16 ->
  Forall (fun c' => callUrl c' = callUrl c) cs ->
  let url := callUrl c in
  let shared :=
    match LRUCache.lookup Url_eq_dec url (geotiffCache w) with
    | Some v => v
    | None => factory_ (fst c) url
    end in
  (forall pre c' post,
     c :: cs = pre ++ c' :: post ->
     fst (getTiledData (fst c') (snd c') (run (map Request pre) w))
     = decoded (fst c') (snd c') shared) /\
  exists evs,
    trace (run (map Request (c :: cs)) w) = trace w ++ evs /\
    factoryCalls evs =
      if LRUCache.containsKey Url_eq_dec url (geotiffCache w) then [] else [url].
Proof.
  intros Hcap Hall url shared. destruct c as [this p].
  destruct (call_summary this p w Hcap) as (Hcap' & inst & evs & Ht & Hr & Hl & Hcase).
  fold url in Hl, Hcase.
  assert (Hinst : inst = shared /\
                  factoryCalls evs =
                    if LRUCache.containsKey Url_eq_dec url (geotiffCache w) then [] else [url]).
  { subst shared. destruct Hcase as [(Hb & Hf)|(Hc & Hi & Hf)].
    - rewrite Hb, (lookup_containsKey _ _ _ _ _ _ Hb). split; [reflexivity | exact Hf].
    - rewrite Hc, (lookup_absent _ _ _ _ _ Hc). split; [exact Hi | exact Hf]. }
  destruct Hinst as [-> Hf].
  destruct (cached_run url shared cs (snd (getTiledData this p w)) Hcap' Hall Hl)
    as (Hcalls & evs' & Ht' & Hf').
  split.
  - intros [|c0 pre] c post H; simpl in H; injection H as H1 H2; subst.
    + exact Hr.
    + exact (Hcalls pre c post eq_refl).
  - exists (evs ++ evs').
    change (run (map Request ((this, p) :: cs)) w)
      with (run (map Request cs) (snd (getTiledData this p w))).
    rewrite Ht', Ht, <- app_assoc, factoryCalls_app, Hf, Hf', app_nil_r. split; reflexivity.
Qed.

End SharedPromise.

Lemma requests_for_one_url_share_one_promise_witness :
  let w := Example.world4 in
  let c := (Example.tcr, Example.request 0 0 0) in
  let cs := [(Example.tcg, Example.request 0 0 0);
             (Example.tcb, Example.request 0 0 0);
             (Example.nir, Example.request 0 0 0)] in
  let url := Example.tileUrl (Example.wrapTileCoord (0, 0, 0)%Z) in
  (forall pre c' post,
     c :: cs = pre ++ c' :: post ->
     fst (GeoTiffTiles.getTiledData (fst c') (snd c')
            (GeoTiffTiles.run (map GeoTiffTiles.Request pre) w))
     = GeoTiffTiles.decoded (fst c') (snd c') (Example.fromUrl url)) /\
  exists evs,
    GeoTiffTiles.trace (GeoTiffTiles.run (map GeoTiffTiles.Request (c :: cs)) w)
    = GeoTiffTiles.trace w ++ evs /\
    factoryCalls evs = [url].
Proof.
  apply (requests_for_one_url_share_one_promise Example.world4
           (Example.tcr, Example.request 0 0 0)
           [(Example.tcg, Example.request 0 0 0);
            (Example.tcb, Example.request 0 0 0);
            (Example.nir, Example.request 0 0 0)]).
  - reflexivity.
  - repeat constructor.
Defined.

(** ** Histories that fit in the cache *)

Section WithinCapacity.

Import Ol GeoTiffTiles.

Lemma firstRequests_snoc (h : list Url) (u : Url) :
  firstRequests (h ++ [u])
  = if in_dec Url_eq_dec u (firstRequests h) then firstRequests h else firstRequests h ++ [u].
Proof. unfold firstRequests. rewrite fold_left_app. reflexivity. Qed.

Lemma in_firstRequests (h : list Url) (u : Url) : In u (firstRequests h) <-> In u h.
Proof.
  induction h as [|a h IH] using rev_ind; [simpl; tauto|].
  rewrite firstRequests_snoc, in_app_iff. simpl.
  destruct (in_dec Url_eq_dec a (firstRequests h)) as [Hin|Hnin].
  - rewrite IH. split; [tauto|]. intros [H|[<-|[]]]; [exact H | apply IH; exact Hin].
  - rewrite in_app_iff, IH. simpl. tauto.
Qed.

Lemma length_touch (u : Url) (l : list Url) :
  NoDup l -> List.length l <= List.length (touch u l).
Proof.
  intro Hnd. unfold touch. rewrite length_app. simpl.
  destruct (in_dec Url_eq_dec u l) as [Hin|Hnin].
  - rewrite <- (other_present_length u l Hnd Hin). lia.
  - rewrite (other_absent u l Hnin). lia.
Qed.

(** X12. As long as the URLs requested so far are at most 16, the cache
    never evicts and no URL is fetched twice: after any sequence of
    constructions and requests from the initial module state with at
    most 16 distinct URLs, the trace has no eviction, and the factory
    calls are exactly the distinct URLs, once each, in the order of their
    first request. *)
Theorem at_most_16_urls_are_fetched_once_each (acts : list Action) :
  List.length (recency (requests acts)) <= 16 ->
  let t := trace (run acts initialWorld) in
  factoryCalls t = firstRequests (requests acts) /\
  NoDup (factoryCalls t) /\
  evictions t = [] /\
  LRUCache.keys (geotiffCache (run acts initialWorld)) = recency (requests acts).
Proof.
  intros Hlen t. subst t.
  assert (Hk : LRUCache.keys (geotiffCache (run acts initialWorld)) = recency (requests acts))
    by (rewrite keys_recency; apply lastn_all; exact Hlen).
  assert (Hmain : factoryCalls (trace (run acts initialWorld)) = firstRequests (requests acts) /\
                  evictions (trace (run acts initialWorld)) = []).
  { clear Hk. induction acts as [|a acts IH] using rev_ind; [split; reflexivity|].
    revert Hlen. rewrite run_snoc, requests_snoc. destruct a as [o|c].
    - simpl. rewrite app_nil_r. exact IH.
    - simpl requests. rewrite recency_snoc. intro Hlen.
      pose proof (length_touch (callUrl c) _ (NoDup_recency (requests acts))) as Hmono.
      assert (Hlen0 : List.length (recency (requests acts)) <= 16) by lia.
      destruct (IH Hlen0) as [IHf IHe].
      assert (Hk : LRUCache.keys (geotiffCache (run acts initialWorld)) = recency (requests acts))
        by (rewrite keys_recency; apply lastn_all; exact Hlen0).
      destruct (invariant_run acts) as (Hhwm & _).
      destruct (request_cases c (run acts initialWorld)) as (_ & Hcases); [lia|].
      cbv zeta in Hcases. rewrite Hk in Hcases.
      destruct (evictions_readEvents (fst c) (snd c)
                  (fst (getTiledData_instance (fst c) (callUrl c) (run acts initialWorld))))
        as [Hre Hrf].
      rewrite firstRequests_snoc.
      destruct Hcases as [(Hin & Ht & _)|[(Hnin & _ & Ht & _)|(e0 & rest & Hnin & Hge & _)]].
      + rewrite Ht, factoryCalls_app, evictions_app, Hre, Hrf, !app_nil_r.
        destruct (in_dec Url_eq_dec (callUrl c) (firstRequests (requests acts))) as [_|Hn].
        * split; assumption.
        * exfalso. apply Hn. apply in_firstRequests. apply in_recency. exact Hin.
      + rewrite Ht, !factoryCalls_app, !evictions_app, Hre, Hrf, !app_nil_r, IHf, IHe.
        destruct (in_dec Url_eq_dec (callUrl c) (firstRequests (requests acts))) as [Hi|_].
        * exfalso. apply Hnin. apply in_recency. apply in_firstRequests. exact Hi.
        * split; reflexivity.
      + exfalso. unfold touch in Hlen. rewrite (other_absent _ _ Hnin), length_app in Hlen.
        simpl in Hlen. rewrite Hhwm in Hge. unfold LRUCache.getCount in Hge.
        unfold LRUCache.keys in Hk. rewrite <- Hk, length_map in Hlen. lia. }
  destruct Hmain as [Hf He]. repeat split; try assumption.
  rewrite Hf. clear. induction (requests acts) as [|u h IH] using rev_ind; [constructor|].
  rewrite firstRequests_snoc. destruct (in_dec Url_eq_dec u (firstRequests h)) as [_|Hn]; [exact IH|].
  apply NoDup_app; [exact IH | constructor; [intros [] | constructor] |].
  intros a Ha [<-|[]]. exact (Hn Ha).
Qed.

End WithinCapacity.

Lemma at_most_16_urls_are_fetched_once_each_witness :
  let acts := Example.setup ++ Example.sixteen
              ++ [GeoTiffTiles.Request (Example.tcg, Example.request 4 0 0);
                  GeoTiffTiles.Request (Example.tcr, Example.request 4 3 0)] in
  let t := GeoTiffTiles.trace (GeoTiffTiles.run acts GeoTiffTiles.initialWorld) in
  factoryCalls t = firstRequests (GeoTiffTiles.requests acts) /\
  NoDup (factoryCalls t) /\
  evictions t = [] /\
  LRUCache.keys (GeoTiffTiles.geotiffCache (GeoTiffTiles.run acts GeoTiffTiles.initialWorld))
  = recency (GeoTiffTiles.requests acts).
Proof.
  apply (at_most_16_urls_are_fetched_once_each
           (Example.setup ++ Example.sixteen
            ++ [GeoTiffTiles.Request (Example.tcg, Example.request 4 0 0);
                GeoTiffTiles.Request (Example.tcr, Example.request 4 3 0)])).
  vm_compute. lia.
Defined.

(** ** Failures of a tile, and the promise of the first image *)

Section Failures.

Import Ol GeoTiffTiles.

(** X5. How a failure inside [GlTiledTextureGeoTiffTiles.getTiledData]
    comes out, in any state. If the GeoTIFF promise of the tile (cached or
    fresh) is rejected, or fulfils with a GeoTIFF whose [getImage] is
    rejected, the call is rejected with that same reason, [readRasters]
    is not called and no [anyTile_] promise is touched. If the image is
    obtained and [readRasters] is rejected, the call is rejected with that
    reason, after one [readRasters] call; the [anyTile_] promise of the
    instance is settled all the same. If [readRasters] fulfils with no
    raster at all, the call fulfils with [undefined]. *)
Theorem getTiledData_passes_failures_on (this : GlTiledTextureGeoTiffTiles)
    (p : TiledDataParameters) (w : World) :
  let instance := fst (getTiledData_instance this (callUrl (this, p)) w) in
  let r := getTiledData this p w in
  exists evs,
    trace (snd r) = trace w ++ evs /\
    (forall e,
       instance = Rejected e \/
       (exists tiff, instance = Fulfilled tiff /\ Geotiff.getImage tiff = Rejected e) ->
       fst r = Rejected e /\ readRastersCalls evs = [] /\ deferred (snd r) = deferred w) /\
    (forall tiff img,
       instance = Fulfilled tiff -> Geotiff.getImage tiff = Fulfilled img ->
       readRastersCalls evs = [getTiledData_options this p] /\
       settled (deferred (snd r) (anyTile_ this)) = true /\
       (forall e, Geotiff.readRasters img (getTiledData_options this p) = Rejected e ->
                  fst r = Rejected e) /\
       (Geotiff.readRasters img (getTiledData_options this p) = Fulfilled [] ->
        fst r = Fulfilled None)).
Proof.
  intros instance r. subst r. rewrite getTiledData_parts. fold instance.
  destruct (instance_trace this (callUrl (this, p)) w) as (evs1 & Ht1 & Hr1).
  destruct (instance_deferred this (callUrl (this, p)) w) as (Hd1 & _).
  destruct (decode_effects this p instance (snd (getTiledData_instance this (callUrl (this, p)) w)))
    as (Hfst & _ & evs2 & Ht2 & _ & _ & Hr2).
  exists (evs1 ++ evs2). rewrite Ht2, Ht1, <- app_assoc, readRastersCalls_app, Hr1, Hr2, Hfst.
  split; [reflexivity|]. split.
  - intros e Hcase.
    assert (Himg : thenP instance (fun tiff => Geotiff.getImage tiff) = Rejected e).
    { destruct Hcase as [He|(tiff & He & Hg)]; rewrite He; simpl; [reflexivity | exact Hg]. }
    unfold decoded, getTiledData_decode. rewrite Himg. simpl.
    repeat split. exact Hd1.
  - intros tiff img He Hg.
    assert (Himg : thenP instance (fun tiff => Geotiff.getImage tiff) = Fulfilled img).
    { rewrite He. simpl. exact Hg. }
    unfold decoded, getTiledData_decode. rewrite Himg. simpl.
    split; [reflexivity|]. split.
    + unfold resolveAnyTile_.
      destruct (deferred (snd (getTiledData_instance this (callUrl (this, p)) w)) (anyTile_ this))
        eqn:Hd; simpl; try rewrite Hd; try reflexivity.
      rewrite Nat.eqb_refl. reflexivity.
    + split; [intros e Hrr | intro Hrr]; rewrite Hrr; reflexivity.
Qed.

(** A promise that is fulfilled is left alone by every action. *)
Lemma fulfilled_stays (acts : list Action) :
  forall (w : World) (r : nat) (img : Geotiff.GeoTIFFImage),
  r < nextRef w -> deferred w r = Fulfilled img ->
  deferred (run acts w) r = Fulfilled img.
Proof.
  induction acts as [|a acts IH]; intros w r img Hr Hd; [exact Hd|].
  change (run (a :: acts) w) with (run acts (step w a)).
  destruct a as [o|c].
  - apply IH; simpl; [lia|].
    destruct (Nat.eqb_spec r (nextRef w)) as [Heq|Hne]; [lia | exact Hd].
  - destruct (request_deferred c w r) as (Hn & Hcase). apply IH; [lia|].
    destruct Hcase as [Hsame|(Hr' & _)]; [congruence|].
    destruct c as [this p]. simpl in *. subst r.
    rewrite getTiledData_parts.
    destruct (instance_deferred this (callUrl (this, p)) w) as (Hd1 & _).
    unfold getTiledData_decode.
    destruct (fst (getTiledData_instance this (callUrl (this, p)) w)) as [|tiff|e]; simpl;
      try (rewrite Hd1; exact Hd).
    destruct (Geotiff.getImage tiff) as [|img'|e]; simpl; try (rewrite Hd1; exact Hd).
    unfold resolveAnyTile_. rewrite Hd1, Hd. simpl. rewrite Hd1. exact Hd.
Qed.

(** X6. The image that has settled the [anyTile_] promise of an instance
    is never replaced: whatever is constructed and requested afterwards,
    images of other sample formats included, [getFetchFunctionDef] of that
    instance answers what its callback gives on that first image. *)
Theorem getFetchFunctionDef_keeps_the_first_image (this : GlTiledTextureGeoTiffTiles)
    (w : World) (img : Geotiff.GeoTIFFImage) (acts : list Action) (uniformName : string) :
  anyTile_ this < nextRef w ->
  deferred w (anyTile_ this) = Fulfilled img ->
  getFetchFunctionDef this uniformName (run acts w)
  = getFetchFunctionDef_callback this uniformName img.
Proof.
  intros Hr Hd. unfold getFetchFunctionDef.
  rewrite (fulfilled_stays acts w (anyTile_ this) img Hr Hd). reflexivity.
Qed.


End Failures.

Lemma getFetchFunctionDef_keeps_the_first_image_witness :
  let w := GeoTiffTiles.run [GeoTiffTiles.Request (Example.tcr, Example.request 0 0 0)]
             Example.world2 in
  let acts := [GeoTiffTiles.Construct Example.floatTiles;
               GeoTiffTiles.Request (Example.tcr, Example.request 1 0 0);
               GeoTiffTiles.Request (Example.tcg, Example.request 1 0 0)] in
  GeoTiffTiles.getFetchFunctionDef Example.tcr "uTex" (GeoTiffTiles.run acts w)
  = GeoTiffTiles.getFetchFunctionDef_callback Example.tcr "uTex" Example.image16.
Proof.
  apply (getFetchFunctionDef_keeps_the_first_image Example.tcr
           (GeoTiffTiles.run [GeoTiffTiles.Request (Example.tcr, Example.request 0 0 0)]
              Example.world2)
           Example.image16
           [GeoTiffTiles.Construct Example.floatTiles;
            GeoTiffTiles.Request (Example.tcr, Example.request 1 0 0);
            GeoTiffTiles.Request (Example.tcg, Example.request 1 0 0)]
           "uTex").
  - vm_compute. lia.
  - vm_compute. reflexivity.
Defined.


Lemma getTiledData_passes_failures_on_witness :
  let w := GeoTiffTiles.run [GeoTiffTiles.Construct Example.offline] GeoTiffTiles.initialWorld in
  let r := GeoTiffTiles.getTiledData Example.broken (Example.request 0 0 0) w in
  exists evs,
    GeoTiffTiles.trace (snd r) = GeoTiffTiles.trace w ++ evs /\
    fst r = Rejected (Foreign 404) /\
    readRastersCalls evs = [] /\
    GeoTiffTiles.deferred (snd r) = GeoTiffTiles.deferred w.
Proof.
  destruct (getTiledData_passes_failures_on Example.broken (Example.request 0 0 0)
              (GeoTiffTiles.run [GeoTiffTiles.Construct Example.offline] GeoTiffTiles.initialWorld))
    as (evs & Ht & Hrej & _).
  exists evs. split; [exact Ht|]. apply (Hrej (Foreign 404)). left. reflexivity.
Defined.

(** ** Images that [GlTiledTextureGeoTiff] cannot load *)

Section Unloadable.

Import Ol.

(** What the methods answer when [tiff_] is rejected. *)
Lemma rejected_tiff (this : GeoTiff.GlTiledTextureGeoTiff) (e : Reason) :
  GeoTiff.tiff_ this = Rejected e ->
  (forall p tr, GeoTiff.getTiledData this p tr = (Rejected e, tr)) /\
  (forall u, GeoTiff.getFetchFunctionDef this u = Rejected e).
Proof.
  intro H. unfold GeoTiff.getTiledData, GeoTiff.getFetchFunctionDef. rewrite H.
  split; intros; reflexivity.
Qed.

(** X8. If the constructor of [GlTiledTextureGeoTiff] is given a sample
    index that the image does not have (index >= samples per pixel), the
    instance is unusable: [tiff_] is rejected with the message
    'Requested sample N, but only M samples are available', every
    [getTiledData] and [getFetchFunctionDef] is rejected with it,
    [readRasters] is never called and no empty tile exists. The check comes
    before the tags are read, so this holds whatever the sample format. *)
Theorem sample_out_of_range_rejects_every_call (o : GeoTiff.Options)
    (img : Geotiff.GeoTIFFImage) :
  GeoTiff.image o = Fulfilled img ->
  Geotiff.getSamplesPerPixel img <= GeoTiff.sample o ->
  let this := GeoTiff.constructor o in
  let msg :=
    Str ("Requested sample " ++ string_of_Z (Z.of_nat (GeoTiff.sample o)) ++ ", but only "
         ++ string_of_Z (Z.of_nat (Geotiff.getSamplesPerPixel img))
         ++ " samples are available") in
  GeoTiff.tiff_ this = Rejected msg /\
  GeoTiff.emptyData_ this = None /\
  (forall p tr, GeoTiff.getTiledData this p tr = (Rejected msg, tr)) /\
  (forall u, GeoTiff.getFetchFunctionDef this u = Rejected msg).
Proof.
  intros Hi Hs this msg.
  assert (Ht : GeoTiff.tiff_ this = Rejected msg /\ GeoTiff.emptyData_ this = None).
  { subst this msg. rewrite constructor_outcome, Hi. simpl. unfold GeoTiff.loadImage_. simpl.
    destruct (Nat.leb_spec (Geotiff.getSamplesPerPixel img) (GeoTiff.sample o)); [|lia].
    split; reflexivity. }
  destruct Ht as [Ht He]. destruct (rejected_tiff this msg Ht) as [H1 H2].
  repeat split; assumption.
Qed.

(** X9. For a sample whose (BitsPerSample, SampleFormat) pair is not
    (8, uint), (16, uint) or (16, int) -- 8-bit signed, 32-bit and
    floating-point samples, or a sample index beyond the tags --
    [GlTiledTextureGeoTiff] delivers no tile at all: every [getTiledData]
    is rejected with the 'FIXME: could not create empty tile data ...'
    message, inside the image as well as outside, and [readRasters] is
    never called. *)
Theorem unsupported_sample_format_rejects_every_tile (o : GeoTiff.Options)
    (img : Geotiff.GeoTIFFImage) (bits format : option Z) :
  GeoTiff.image o = Fulfilled img ->
  GeoTiff.sample o < Geotiff.getSamplesPerPixel img ->
  Geotiff.samplePair img (GeoTiff.sample o) = Some (bits, format) ->
  (bits, format) <> (Some 8%Z, Some 1%Z) ->
  (bits, format) <> (Some 16%Z, Some 1%Z) ->
  (bits, format) <> (Some 16%Z, Some 2%Z) ->
  forall p tr,
    GeoTiff.getTiledData (GeoTiff.constructor o) p tr
    = (Rejected (Str "FIXME: could not create empty tile data for GeoTIFF sample format, or unsupported (32-bit) format"),
       tr).
Proof.
  intros Hi Hs Hp N1 N2 N3.
  apply (rejected_tiff (GeoTiff.constructor o)).
  rewrite constructor_outcome, Hi. simpl.
  destruct (samplePair_tags _ _ _ _ Hp) as (b & f & Hb & Hf & Hbits & Hformat).
  unfold GeoTiff.loadImage_. simpl.
  destruct (Nat.leb_spec (Geotiff.getSamplesPerPixel img) (GeoTiff.sample o)); [lia|].
  rewrite Hb, Hf, Hbits, Hformat.
  split_tests strictEq_spec; subst; try reflexivity; congruence.
Qed.

(** X10. An image without the BitsPerSample or the SampleFormat tag makes
    both classes fail with a [TypeError]: in [GlTiledTextureGeoTiffTiles],
    [getFetchFunctionDef] of an instance whose [anyTile_] promise resolved
    with such an image is rejected with it; a [GlTiledTextureGeoTiff]
    built on such an image (with a sample index the image has) has its
    [tiff_] rejected with it, and so every [getTiledData] and
    [getFetchFunctionDef]. *)
Theorem missing_tag_is_a_TypeError (img : Geotiff.GeoTIFFImage) :
  Geotiff.BitsPerSample (Geotiff.getFileDirectory img) = None \/
  Geotiff.SampleFormat (Geotiff.getFileDirectory img) = None ->
  (forall this u w,
     GeoTiffTiles.deferred w (GeoTiffTiles.anyTile_ this) = Fulfilled img ->
     GeoTiffTiles.getFetchFunctionDef this u w = Rejected TypeError) /\
  (forall o,
     GeoTiff.image o = Fulfilled img ->
     GeoTiff.sample o < Geotiff.getSamplesPerPixel img ->
     GeoTiff.tiff_ (GeoTiff.constructor o) = Rejected TypeError /\
     (forall p tr, GeoTiff.getTiledData (GeoTiff.constructor o) p tr = (Rejected TypeError, tr)) /\
     (forall u, GeoTiff.getFetchFunctionDef (GeoTiff.constructor o) u = Rejected TypeError)).
Proof.
  intro Htag. split.
  - intros this u w Hd. unfold GeoTiffTiles.getFetchFunctionDef. rewrite Hd. simpl.
    unfold GeoTiffTiles.getFetchFunctionDef_callback.
    destruct Htag as [Hg|Hg]; rewrite Hg; [reflexivity|].
    destruct (Geotiff.BitsPerSample _); reflexivity.
  - intros o Hi Hs.
    assert (Ht : GeoTiff.tiff_ (GeoTiff.constructor o) = Rejected TypeError).
    { rewrite constructor_outcome, Hi. simpl. unfold GeoTiff.loadImage_. simpl.
      destruct (Nat.leb_spec (Geotiff.getSamplesPerPixel img) (GeoTiff.sample o)); [lia|].
      destruct Htag as [Hg|Hg]; rewrite Hg; [reflexivity|].
      destruct (Geotiff.BitsPerSample _); reflexivity. }
    split; [exact Ht|]. exact (rejected_tiff _ _ Ht).
Qed.

(** X11. A failure to obtain the image is passed on by
    [GlTiledTextureGeoTiff]: if the GeoTIFF promise given to the
    constructor is rejected, or the GeoTIFF's [getImage] is, then
    [loadImage_] does not run (no field of the instance is set), and every
    [getTiledData] and [getFetchFunctionDef] is rejected with that same
    reason, without a [readRasters] call. *)
Theorem image_failure_is_passed_on (o : GeoTiff.Options) (e : Reason) :
  GeoTiff.image o = Rejected e ->
  let this := GeoTiff.constructor o in
  this = GeoTiff.withTiff (Rejected e) (GeoTiff.constructor_fields o) /\
  (forall p tr, GeoTiff.getTiledData this p tr = (Rejected e, tr)) /\
  (forall u, GeoTiff.getFetchFunctionDef this u = Rejected e).
Proof.
  intros Hi this.
  assert (Ht : this = GeoTiff.withTiff (Rejected e) (GeoTiff.constructor_fields o)).
  { subst this. rewrite constructor_outcome, Hi. reflexivity. }
  split; [exact Ht|]. apply rejected_tiff. rewrite Ht. reflexivity.
Qed.

End Unloadable.

Lemma sample_out_of_range_rejects_every_call_witness :
  let this := GeoTiff.constructor (Example.singleSample Example.image16 4) in
  let msg := Str "Requested sample 4, but only 4 samples are available" in
  GeoTiff.tiff_ this = Rejected msg /\
  GeoTiff.emptyData_ this = None /\
  (forall p tr, GeoTiff.getTiledData this p tr = (Rejected msg, tr)) /\
  (forall u, GeoTiff.getFetchFunctionDef this u = Rejected msg).
Proof.
  apply (sample_out_of_range_rejects_every_call
           (Example.singleSample Example.image16 4) Example.image16).
  - reflexivity.
  - vm_compute. lia.
Defined.

Lemma unsupported_sample_format_rejects_every_tile_witness :
  GeoTiff.getTiledData (GeoTiff.constructor (Example.single (Example.imageOf 32 3)))
    Example.inside []
  = (Rejected (Str "FIXME: could not create empty tile data for GeoTIFF sample format, or unsupported (32-bit) format"),
     []).
Proof.
  apply (unsupported_sample_format_rejects_every_tile
           (Example.single (Example.imageOf 32 3)) (Example.imageOf 32 3)
           (Some 32%Z) (Some 3%Z)).
  - reflexivity.
  - vm_compute. lia.
  - reflexivity.
  - discriminate.
  - discriminate.
  - discriminate.
Defined.

Lemma missing_tag_is_a_TypeError_witness :
  GeoTiff.tiff_ (GeoTiff.constructor (Example.singleSample Example.untagged 0))
  = Rejected TypeError.
Proof.
  apply (proj2 (missing_tag_is_a_TypeError Example.untagged (or_intror eq_refl))
           (Example.singleSample Example.untagged 0)).
  - reflexivity.
  - vm_compute. lia.
Defined.

Lemma image_failure_is_passed_on_witness :
  let o := {| GeoTiff.tiff := inr (Rejected (Foreign 404));
              GeoTiff.fetchFuncName := "getData";
              GeoTiff.sample := 0;
              GeoTiff.fillValue := (-999)%float;
              GeoTiff.pool := Example.pool |} in
  let this := GeoTiff.constructor o in
  this = GeoTiff.withTiff (Rejected (Foreign 404)) (GeoTiff.constructor_fields o) /\
  (forall p tr, GeoTiff.getTiledData this p tr = (Rejected (Foreign 404), tr)) /\
  (forall u, GeoTiff.getFetchFunctionDef this u = Rejected (Foreign 404)).
Proof.
  apply (image_failure_is_passed_on
           {| GeoTiff.tiff := inr (Rejected (Foreign 404));
              GeoTiff.fetchFuncName := "getData";
              GeoTiff.sample := 0;
              GeoTiff.fillValue := (-999)%float;
              GeoTiff.pool := Example.pool |} (Foreign 404)).
  reflexivity.
Defined.
